(** * mcp-labrat: the calendar record codec and the tool session loop

    A shallow embedding of
    - [src/utils/ical-lib.ts], lines 1-97: [escapeText], [toCalDav],
      [generateICal];
    - the tool server that follows in the same file (lines 176-366): the
      [createEvent] tool handler;
    - [src/mcp-client/index.ts]: [callMcpClient];
    together with the properties the specification states about them.

    JavaScript strings are modelled by [string], holding the UTF-8
    encoding of the text.  The characters the code looks for by themselves
    (backslash, comma, semicolon, line feed, colon, digits) are single
    bytes that occur in no longer sequence; [trim] looks for the white
    space of ECMA-262, which beyond ASCII is written with two or three
    bytes.  A [Date] is its time value, an integer number of milliseconds
    since the epoch. *)

From Stdlib Require Import ZArith List String Ascii Bool Lia.
From Stdlib Require Import DecimalString.
Import ListNotations.

Open Scope string_scope.
Open Scope Z_scope.

(** ** Characters and strings *)

Module JsString.

Definition LF : ascii := "010"%char.
Definition CR : ascii := "013"%char.
Definition backslash : ascii := "\"%char.

Definition CRLF : string := String CR (String LF "").

(** [s.replace(re, f)] for a global regular expression [re] that matches
    one character at a time: every character in the class [p] is replaced
    by [f] of it, the others are kept. *)
Fixpoint replaceAll (p : ascii -> bool) (f : ascii -> string) (s : string)
  : string :=
  match s with
  | "" => ""
  | String c rest =>
      (if p c then f c else String c "") ++ replaceAll p f rest
  end.

(** [lines.join(sep)] *)
Definition join (sep : string) (lines : list string) : string :=
  String.concat sep lines.

(** [s.padStart(n, "0")] *)
Definition padStart0 (s : string) (n : nat) : string :=
  string_of_list_ascii (repeat "0"%char (n - String.length s)) ++ s.

(** The characters of a string satisfy [p]. *)
Fixpoint allChars (p : ascii -> bool) (s : string) : bool :=
  match s with
  | "" => true
  | String c rest => p c && allChars p rest
  end.

Definition isLF (c : ascii) : bool := Ascii.eqb c LF.
Definition noLF (s : string) : bool := allChars (fun c => negb (isLF c)) s.

(** *** [s.trim()]

    [String.prototype.trim] removes, at both ends, the code points of
    WhiteSpace and LineTerminator (ECMA-262, 12.2 and 12.3): TAB, LF, VT,
    FF, CR, SPACE, NO-BREAK SPACE, the other members of the category Zs
    (U+1680, U+2000 to U+200A, U+202F, U+205F, U+3000), LINE SEPARATOR,
    PARAGRAPH SEPARATOR and ZERO WIDTH NO-BREAK SPACE. *)
Definition whiteSpaceCodePoints : list N :=
  [ 9; 10; 11; 12; 13; 32; 160; 5760;
    8192; 8193; 8194; 8195; 8196; 8197; 8198; 8199; 8200; 8201; 8202;
    8232; 8233; 8239; 8287; 12288; 65279 ]%N.

(** The UTF-8 encoding of a code point. *)
Definition utf8 (cp : N) : string :=
  (let byte (n : N) := ascii_of_N n in
   let cont (n : N) := byte (128 + n mod 64) in
   if cp <? 128 then String (byte cp) ""
   else if cp <? 2048 then
     String (byte (192 + cp / 64)) (String (cont cp) "")
   else if cp <? 65536 then
     String (byte (224 + cp / 4096))
       (String (cont (cp / 64)) (String (cont cp) ""))
   else
     String (byte (240 + cp / 262144))
       (String (cont (cp / 4096))
          (String (cont (cp / 64)) (String (cont cp) ""))))%N.

Definition whiteSpaces : list string := map utf8 whiteSpaceCodePoints.

(** The bytes [s] are one white-space character. *)
Definition isWhiteSpace (s : string) : bool :=
  existsb (String.eqb s) whiteSpaces.

(** [s.trimStart()]: a white-space character at the head, of one, two or
    three bytes, is dropped, and so on. *)
Fixpoint trimStart (s : string) : string :=
  match s with
  | "" => ""
  | String a rest1 =>
      if isWhiteSpace (String a "") then trimStart rest1
      else
        match rest1 with
        | "" => s
        | String b rest2 =>
            if isWhiteSpace (String a (String b "")) then trimStart rest2
            else
              match rest2 with
              | "" => s
              | String c rest3 =>
                  if isWhiteSpace (String a (String b (String c "")))
                  then trimStart rest3
                  else s
              end
        end
  end.

(** The text is white space only. *)
Definition allWhiteSpace (s : string) : bool :=
  match trimStart s with "" => true | _ => false end.

(** [s.trimEnd()]: the text up to the point from which white space only
    follows. *)
Fixpoint trimEnd (s : string) : string :=
  match s with
  | "" => ""
  | String c rest => if allWhiteSpace s then "" else String c (trimEnd rest)
  end.

Definition trim (s : string) : string := trimEnd (trimStart s).

End JsString.
Import JsString.

(** ** Outcomes of JavaScript code *)

Inductive JSError : Type :=
| TypeError (msg : string)
| ExternalFailure (msg : string).

Inductive Completion (A : Type) : Type :=
| Normal (a : A)
| Throw (e : JSError).
Arguments Normal {A} a.
Arguments Throw {A} e.

Definition bindC {A B} (c : Completion A) (k : A -> Completion B)
  : Completion B :=
  match c with
  | Normal a => k a
  | Throw e => Throw e
  end.

Declare Scope completion_scope.
Delimit Scope completion_scope with completion.
Notation "x <- c ;; k" := (bindC c (fun x => k))
  (at level 61, c at next level, right associativity) : completion_scope.

Definition isThrow {A} (c : Completion A) : bool :=
  match c with Throw _ => true | Normal _ => false end.

(** ** Text escaping, [escapeText] (ical-lib.ts, lines 18-19) *)

Definition isSpecial (c : ascii) : bool :=
  Ascii.eqb c backslash || Ascii.eqb c ","%char || Ascii.eqb c ";"%char.

(** [str.replace(/[\\,;]/g, (match) => `\\${match}`).replace(/\n/g, "\\n")] *)
Definition escapeText (str : string) : string :=
  replaceAll isLF (fun _ => String backslash "n")
    (replaceAll isSpecial (fun m => String backslash (String m "")) str).

(** The one-character view of the rule of section 4.2. *)
Definition escapeChar (c : ascii) : string :=
  if isSpecial c then String backslash (String c "")
  else if isLF c then String backslash "n"
  else String c "".

Fixpoint escapeSpec (s : string) : string :=
  match s with
  | "" => ""
  | String c rest => escapeChar c ++ escapeSpec rest
  end.

(** A text is in escaped form when, read from the left, every backslash
    opens one of the four pairs backslash-backslash, backslash-comma,
    backslash-semicolon, backslash-n, and no comma, semicolon or line feed
    stands outside such a pair. *)
Fixpoint wellEscaped (s : string) : bool :=
  match s with
  | "" => true
  | String c rest =>
      if Ascii.eqb c backslash then
        match rest with
        | "" => false
        | String d rest' =>
            (isSpecial d || Ascii.eqb d "n"%char) && wellEscaped rest'
        end
      else negb (isSpecial c) && negb (isLF c) && wellEscaped rest
  end.

(** ** Dates: the time-value arithmetic of ECMA-262 (section 21.4.1)

    Luxon computes the civil fields of an instant with
    [new Date(ts + offset * 60 * 1000)] and the [getUTC...] accessors
    ([tsToObj]); these are the functions below. *)

Module JsDate.

Definition msPerDay : Z := 86400000.
Definition msPerHour : Z := 3600000.
Definition msPerMinute : Z := 60000.
Definition msPerSecond : Z := 1000.

Definition Day (t : Z) : Z := t / msPerDay.
Definition TimeWithinDay (t : Z) : Z := t mod msPerDay.

Definition DaysInYear (y : Z) : Z :=
  if negb (y mod 4 =? 0) then 365
  else if negb (y mod 100 =? 0) then 366
  else if negb (y mod 400 =? 0) then 365
  else 366.

Definition DayFromYear (y : Z) : Z :=
  365 * (y - 1970) + (y - 1969) / 4 - (y - 1901) / 100 + (y - 1601) / 400.

(** The largest [y] with [DayFromYear y <= d]: an estimate from the mean
    length of a year, corrected by at most one ([YearFromDay_spec]). *)
Definition YearFromDay (d : Z) : Z :=
  let y := 1970 + (400 * d) / 146097 in
  if DayFromYear (y + 1) <=? d then y + 1
  else if d <? DayFromYear y then y - 1
  else y.

Definition YearFromTime (t : Z) : Z := YearFromDay (Day t).

Definition InLeapYear (t : Z) : Z :=
  if DaysInYear (YearFromTime t) =? 366 then 1 else 0.

Definition DayWithinYear (t : Z) : Z :=
  Day t - DayFromYear (YearFromTime t).

(** Days of the year before month [m] (0 = January), [leap] being 0 or 1. *)
Definition daysBeforeMonth (leap m : Z) : Z :=
  match m with
  | 0 => 0
  | 1 => 31
  | 2 => 59 + leap
  | 3 => 90 + leap
  | 4 => 120 + leap
  | 5 => 151 + leap
  | 6 => 181 + leap
  | 7 => 212 + leap
  | 8 => 243 + leap
  | 9 => 273 + leap
  | 10 => 304 + leap
  | _ => 334 + leap
  end.

Definition MonthFromTime (t : Z) : Z :=
  let d := DayWithinYear t in
  let l := InLeapYear t in
  if d <? 31 then 0
  else if d <? 59 + l then 1
  else if d <? 90 + l then 2
  else if d <? 120 + l then 3
  else if d <? 151 + l then 4
  else if d <? 181 + l then 5
  else if d <? 212 + l then 6
  else if d <? 243 + l then 7
  else if d <? 273 + l then 8
  else if d <? 304 + l then 9
  else if d <? 334 + l then 10
  else 11.

Definition DateFromTime (t : Z) : Z :=
  DayWithinYear t - daysBeforeMonth (InLeapYear t) (MonthFromTime t) + 1.

Definition HourFromTime (t : Z) : Z := (t / msPerHour) mod 24.
Definition MinFromTime (t : Z) : Z := (t / msPerMinute) mod 60.
Definition SecFromTime (t : Z) : Z := (t / msPerSecond) mod 60.

(** Day of the week, 0 = Sunday. *)
Definition WeekDay (t : Z) : Z := (Day t + 4) mod 7.

(** [MakeDay(year, month, date)] for a month in 0..11, and [MakeTime]. *)
Definition MakeDay (year month date : Z) : Z :=
  DayFromYear year
  + daysBeforeMonth (if DaysInYear year =? 366 then 1 else 0) month
  + date - 1.

Definition MakeTime (hour min sec ms : Z) : Z :=
  hour * msPerHour + min * msPerMinute + sec * msPerSecond + ms.

Definition MakeDate (day time : Z) : Z := day * msPerDay + time.

End JsDate.
Import JsDate.

(** ** Luxon: civil fields, number formatting and the format string
    [yyyyMMdd'T'HHmmss] *)

Module Luxon.

(** [c], the civil fields of a [DateTime]; [month] is 1..12. *)
Record DateObj : Type := mkDateObj {
  year : Z; month : Z; day : Z; hour : Z; minute : Z; second : Z
}.

(** [tsToObj(ts, offset)]: [offset] is the zone offset in minutes. *)
Definition tsToObj (ts offset : Z) : DateObj :=
  let t := ts + offset * 60 * 1000 in
  {| year := YearFromTime t;
     month := MonthFromTime t + 1;
     day := DateFromTime t;
     hour := HourFromTime t;
     minute := MinFromTime t;
     second := SecFromTime t |}.

(** [objToLocalTS(obj)]: [Date.UTC] of the fields. *)
Definition objToLocalTS (c : DateObj) : Z :=
  MakeDate (MakeDay (year c) (month c - 1) (day c))
           (MakeTime (hour c) (minute c) (second c) 0).

(** The decimal numeral of a natural number, [String(n)]. *)
Definition decimal (n : Z) : string :=
  NilZero.string_of_uint (N.to_uint (Z.to_N n)).

(** [padStart(input, n)] of Luxon's [util.js], the number formatter of the
    locales that write ASCII digits. *)
Definition padStart (input : Z) (n : nat) : string :=
  if input <? 0 then "-" ++ padStart0 (decimal (- input)) n
  else padStart0 (decimal input) n.

(** [dt.toFormat("yyyyMMdd'T'HHmmss")] for a valid [DateTime]. *)
Definition formatCalDav (c : DateObj) : string :=
  padStart (year c) 4 ++ padStart (month c) 2 ++ padStart (day c) 2
  ++ "T"
  ++ padStart (hour c) 2 ++ padStart (minute c) 2 ++ padStart (second c) 2.

(** What [toFormat] returns for an invalid [DateTime]. *)
Definition INVALID : string := "Invalid DateTime".

(** [fixOffset(localTS, o, tz)]: the instant of a local time, from a guess
    [o] of the offset. *)
Definition fixOffset (tz : Z -> Z) (localTS o : Z) : Z :=
  let utcGuess := localTS - o * 60 * 1000 in
  let o2 := tz utcGuess in
  if o =? o2 then utcGuess
  else
    let utcGuess' := utcGuess - (o2 - o) * 60 * 1000 in
    let o3 := tz utcGuess' in
    if o2 =? o3 then utcGuess'
    else localTS - Z.min o2 o3 * 60 * 1000.

End Luxon.
Import Luxon.

(** The offset of Europe/Helsinki from UTC, in minutes, under the rule in
    force since 1996: daylight saving time from the last Sunday of March,
    01:00 UTC, to the last Sunday of October, 01:00 UTC.  The codec itself
    is stated over an arbitrary offset table; this one is the instance used
    for concrete instants. *)
Definition lastSunday (y month0 : Z) : Z :=
  let d := MakeDay y month0 31 in d - (d + 4) mod 7.

Definition helsinkiOffset (ts : Z) : Z :=
  let y := YearFromTime ts in
  let dstStart := MakeDate (lastSunday y 2) msPerHour in
  let dstEnd := MakeDate (lastSunday y 9) msPerHour in
  if (dstStart <=? ts) && (ts <? dstEnd) then 180 else 120.

(** ** The codec, [src/utils/ical-lib.ts] *)

(** A [Date] object: a time value in milliseconds, or Invalid Date. *)
Inductive JSDate : Type :=
| TimeValue (ms : Z)
| InvalidDate.

(** [ICalInput].  The TypeScript type requires [title], [start] and [end];
    they are optional here ([None] is [undefined]) so that calls from
    outside the type checker can be stated.  [wellTyped] is the type. *)
Record ICalInput : Type := mkICalInput {
  title : option string;
  start : option JSDate;
  end_ : option JSDate;
  description : option string;
  location : option string;
  uid : option string;
  domain : option string
}.

Definition wellTyped (input : ICalInput) : Prop :=
  title input <> None /\ start input <> None /\ end_ input <> None.

(** Truthiness of an optional string: [undefined] and the empty string are
    falsy. *)
Definition truthy (v : option string) : bool :=
  match v with
  | Some (String _ _) => true
  | _ => false
  end.

(** [escapeText(v)] on a value that may be [undefined]: [v.replace] then
    throws. *)
Definition escapeTextJS (v : option string) : Completion string :=
  match v with
  | Some s => Normal (escapeText s)
  | None =>
      Throw (TypeError
               "Cannot read properties of undefined (reading 'replace')")
  end.

Section Codec.

(** The zone table of Europe/Helsinki: the offset in minutes at an instant
    ([zone.offset(ts)]). *)
Variable zoneOffset : Z -> Z.

(** [toCalDav] (lines 24-29): a value that is no [Date], or an Invalid
    Date, makes an invalid [DateTime]. *)
Definition toCalDav (date : option JSDate) : string :=
  match date with
  | Some (TimeValue ts) => formatCalDav (tsToObj ts (zoneOffset ts))
  | _ => INVALID
  end.

Definition finalUid (randomUUID : string) (input : ICalInput) : string :=
  if truthy (uid input) then
    match uid input with Some u => u | None => "" end
  else
    randomUUID ++ "@"
    ++ match domain input with
       | Some d => d
       | None => "example-domain.com"
       end.

Definition headerLines : list string :=
  [ "BEGIN:VCALENDAR";
    "VERSION:2.0";
    "PRODID:-//Standardized ICal Lib//EN";
    "CALSCALE:GREGORIAN";
    "BEGIN:VTIMEZONE";
    "TZID:Europe/Helsinki";
    "BEGIN:STANDARD";
    "DTSTART:20241027T030000";
    "RRULE:FREQ=YEARLY;BYMONTH=10;BYDAY=-1SU";
    "TZOFFSETFROM:+0300";
    "TZOFFSETTO:+0200";
    "TZNAME:EET";
    "END:STANDARD";
    "BEGIN:DAYLIGHT";
    "DTSTART:20240331T020000";
    "RRULE:FREQ=YEARLY;BYMONTH=3;BYDAY=-1SU";
    "TZOFFSETFROM:+0200";
    "TZOFFSETTO:+0300";
    "TZNAME:EEST";
    "END:DAYLIGHT";
    "END:VTIMEZONE";
    "BEGIN:VEVENT" ].

Definition optionalLine (name : string) (v : option string) : list string :=
  match v with
  | Some (String c s) => [name ++ escapeText (String c s)]
  | _ => []
  end.

(** The array [lines] just before the join (lines 53-91).  [randomUUID] is
    the value of [crypto.randomUUID()], [now] the time value of
    [new Date()]. *)
Definition icalLines (randomUUID : string) (now : Z) (input : ICalInput)
  : Completion (list string) :=
  (let uidLine := "UID:" ++ finalUid randomUUID input in
   let stamp := "DTSTAMP:" ++ toCalDav (Some (TimeValue now)) in
   let dtstart := "DTSTART;TZID=Europe/Helsinki:" ++ toCalDav (start input) in
   let dtend := "DTEND;TZID=Europe/Helsinki:" ++ toCalDav (end_ input) in
   summary <- escapeTextJS (title input) ;;
   let summaryLine := "SUMMARY:" ++ summary in
   Normal (headerLines
           ++ [uidLine; stamp; dtstart; dtend; summaryLine]
           ++ optionalLine "DESCRIPTION:" (description input)
           ++ optionalLine "LOCATION:" (location input)
           ++ ["END:VEVENT"; "END:VCALENDAR"])%list)%completion.

(** [generateICal] (lines 39-95). *)
Definition generateICal (randomUUID : string) (now : Z) (input : ICalInput)
  : Completion string :=
  (lines <- icalLines randomUUID now input ;;
   Normal (join CRLF lines))%completion.

End Codec.

(** ** The [createEvent] tool handler (ical-lib.ts, lines 233-283) *)

Module IsoText.

Definition digitValue (c : ascii) : option Z :=
  let n := Z.of_nat (nat_of_ascii c) in
  if (48 <=? n) && (n <=? 57) then Some (n - 48) else None.

(** The value of a string of decimal digits ([None] if another character
    occurs). *)
Fixpoint digitsValue (acc : Z) (s : string) : option Z :=
  match s with
  | "" => Some acc
  | String c rest =>
      match digitValue c with
      | Some d => digitsValue (10 * acc + d) rest
      | None => None
      end
  end.

Definition field (from len : nat) (s : string) : option Z :=
  let f := substring from len s in
  if Nat.eqb (String.length f) len then digitsValue 0 f else None.

Definition charAt (n : nat) (s : string) : option ascii := String.get n s.

Definition isChar (c : ascii) (o : option ascii) : bool :=
  match o with
  | Some d => Ascii.eqb c d
  | None => false
  end.

End IsoText.
Import IsoText.

Record CreateEventInput : Type := mkCreateEventInput {
  ce_start : string;
  ce_end : option string;
  ce_title : string;
  ce_description : option string;
  ce_location : option string
}.

(** The pattern of the input schema,
    [/^\d{4}-\d{2}-\d{2}T\d{2}:\d{2}:\d{2}$/], as the six numbers it
    delimits. *)
Definition isoFields (s : string) : option DateObj :=
  if Nat.eqb (String.length s) 19
     && isChar "-" (charAt 4 s) && isChar "-" (charAt 7 s)
     && isChar "T" (charAt 10 s)
     && isChar ":" (charAt 13 s) && isChar ":" (charAt 16 s)
  then
    match field 0 4 s, field 5 2 s, field 8 2 s,
          field 11 2 s, field 14 2 s, field 17 2 s with
    | Some y, Some mo, Some d, Some h, Some mi, Some se =>
        Some (mkDateObj y mo d h mi se)
    | _, _, _, _, _, _ => None
    end
  else None.

Definition matchesSchema (s : string) : bool :=
  match isoFields s with Some _ => true | None => false end.

(** Luxon's [daysInMonth] and the validity checks of [fromObject]. *)
Definition daysInMonth (y m : Z) : Z :=
  match m with
  | 2 => if DaysInYear y =? 366 then 29 else 28
  | 4 | 6 | 9 | 11 => 30
  | _ => 31
  end.

Definition validFields (c : DateObj) : bool :=
  (1 <=? month c) && (month c <=? 12)
  && (1 <=? day c) && (day c <=? daysInMonth (year c) (month c))
  && (((0 <=? hour c) && (hour c <=? 23))
      || ((hour c =? 24) && (minute c =? 0) && (second c =? 0)))
  && (0 <=? minute c) && (minute c <=? 59)
  && (0 <=? second c) && (second c <=? 59).

Section CreateEvent.

Variable zoneOffset : Z -> Z.

(** [DateTime.fromISO(text, { zone: "Europe/Helsinki" }).toJSDate()] on a
    text of the schema's pattern; [tsNow] is the clock at the call, whose
    offset is Luxon's first guess. *)
Definition fromISO (tsNow : Z) (text : string) : JSDate :=
  match isoFields text with
  | Some c =>
      if validFields c
      then TimeValue (fixOffset zoneOffset (objToLocalTS c) (zoneOffset tsNow))
      else InvalidDate
  | None => InvalidDate
  end.

(** [new Date(d.getTime() + ms)] *)
Definition addMs (d : JSDate) (ms : Z) : JSDate :=
  match d with
  | TimeValue t => TimeValue (t + ms)
  | InvalidDate => InvalidDate
  end.

(** Lines 242-256: the event the handler hands to [createEvent]. *)
Definition createEventArgs (tsNow : Z) (input : CreateEventInput)
  : ICalInput :=
  let startDate := fromISO tsNow (ce_start input) in
  let endDate :=
    if truthy (ce_end input)
    then fromISO tsNow (match ce_end input with Some e => e | None => "" end)
    else addMs startDate (60 * 60 * 1000) in
  {| title := Some (ce_title input);
     start := Some startDate;
     end_ := Some endDate;
     description := ce_description input;
     location := ce_location input;
     uid := None;
     domain := None |}.

End CreateEvent.

(** ** The meaning of a zone-qualified local time

    A value [yyyyMMdd'T'HHmmss] under [TZID=Europe/Helsinki] denotes an
    instant: RFC 5545 (3.3.5) reads a local time that occurs twice as its
    first occurrence and one that is skipped with the offset before the
    gap. *)

Module CalDavTime.

Definition calDavFields (s : string) : option DateObj :=
  if Nat.eqb (String.length s) 15 && isChar "T" (charAt 8 s) then
    match field 0 4 s, field 4 2 s, field 6 2 s,
          field 9 2 s, field 11 2 s, field 13 2 s with
    | Some y, Some mo, Some d, Some h, Some mi, Some se =>
        Some (mkDateObj y mo d h mi se)
    | _, _, _, _, _, _ => None
    end
  else None.

(** The offsets of the timezone block of the record ([TZOFFSETTO] of its
    DAYLIGHT and STANDARD parts), in minutes. *)
Definition daylightOffset : Z := 180.
Definition standardOffset : Z := 120.

Definition resolveLocal (zoneOffset : Z -> Z) (localTS : Z) : Z :=
  let early := localTS - daylightOffset * 60 * 1000 in
  if zoneOffset early =? daylightOffset then early
  else localTS - standardOffset * 60 * 1000.

Definition readTime (zoneOffset : Z -> Z) (v : string) : option Z :=
  match calDavFields v with
  | Some c => Some (resolveLocal zoneOffset (objToLocalTS c))
  | None => None
  end.

(** An instant that its own written form denotes: a whole second, a year
    of four digits, and not the second pass through the hour repeated at
    the end of daylight saving time. *)
Definition readable (zoneOffset : Z -> Z) (ts : Z) : Prop :=
  ts mod 1000 = 0
  /\ 0 <= YearFromTime (ts + zoneOffset ts * 60 * 1000) <= 9999
  /\ (zoneOffset ts = daylightOffset
      \/ (zoneOffset ts = standardOffset
          /\ zoneOffset (ts - 60 * 60 * 1000) <> daylightOffset)).

End CalDavTime.
Import CalDavTime.

(** ** Lines of a record *)

Module RecordText.

Definition consHead (c : ascii) (ls : list string) : list string :=
  match ls with
  | [] => [String c ""]
  | l :: ls' => String c l :: ls'
  end.

(** The CRLF-delimited pieces of a text. *)
Fixpoint splitCRLF (s : string) : list string :=
  match s with
  | "" => [""]
  | String c rest =>
      match rest with
      | "" => [String c ""]
      | String d rest' =>
          if Ascii.eqb c CR && Ascii.eqb d LF
          then "" :: splitCRLF rest'
          else consHead c (splitCRLF rest)
      end
  end.

Fixpoint startsWith (p s : string) : bool :=
  match p with
  | "" => true
  | String a p' =>
      match s with
      | "" => false
      | String b s' => Ascii.eqb a b && startsWith p' s'
      end
  end.

(** The text has a line that begins with [name]. *)
Definition hasLine (name text : string) : bool :=
  existsb (startsWith name) (splitCRLF text).

Fixpoint endsWith (suffix s : string) : bool :=
  String.eqb s suffix
  || match s with
     | "" => false
     | String _ rest => endsWith suffix rest
     end.

(** Every line followed by the terminator. *)
Definition terminated (sep : string) (lines : list string) : string :=
  String.concat "" (map (fun l => l ++ sep) lines).

End RecordText.
Import RecordText.

(** Modelled from the spec: [createEvent] of [src/calDav/calendarClient.ts],
    which is not among the sources.  Section 6: the backend stores the
    interchange text of each event, and the codec is the only component
    that writes that text; so the record created for an event is
    [generateICal] of it, with no [uid] of the caller's. *)
Definition createEventRecord (zoneOffset : Z -> Z) (randomUUID : string)
  (now : Z) (event : ICalInput) : Completion string :=
  generateICal zoneOffset randomUUID now event.

(** ** Reading records back *)

(** Modelled from the spec: [icsToJson] of [src/utils/ics-to-json.ts], which
    is not among the sources.  Section 4.3: it consumes records, and per
    event block extracts title, start and end (resolved against the zone's
    rules), description and location; section 8 takes it to reverse the
    escaping of section 4.2.  Lines are the CRLF-delimited pieces of the
    text, and times are read as [CalDavTime.readTime] reads them. *)
Module IcsToJson.

Record EventJson : Type := mkEventJson {
  summary : option string;
  startDate : option Z;
  endDate : option Z;
  description : option string;
  location : option string
}.

Definition emptyEvent : EventJson := mkEventJson None None None None None.

Fixpoint unescapeText (s : string) : string :=
  match s with
  | "" => ""
  | String c rest =>
      if Ascii.eqb c backslash then
        match rest with
        | "" => String c ""
        | String d rest' =>
            String (if Ascii.eqb d "n"%char then LF else d)
                   (unescapeText rest')
        end
      else String c (unescapeText rest)
  end.

Fixpoint takeUntil (p : ascii -> bool) (s : string) : string :=
  match s with
  | "" => ""
  | String c rest => if p c then "" else String c (takeUntil p rest)
  end.

Fixpoint dropThrough (p : ascii -> bool) (s : string) : string :=
  match s with
  | "" => ""
  | String c rest => if p c then rest else dropThrough p rest
  end.

Definition isColon (c : ascii) : bool := Ascii.eqb c ":"%char.
Definition isDelim (c : ascii) : bool :=
  Ascii.eqb c ":"%char || Ascii.eqb c ";"%char.

Definition propName (line : string) : string := takeUntil isDelim line.
Definition propValue (line : string) : string := dropThrough isColon line.

Section Parse.

Variable zoneOffset : Z -> Z.

Definition parseTime (v : string) : option Z := readTime zoneOffset v.

Definition setProp (ev : EventJson) (line : string) : EventJson :=
  let name := propName line in
  let v := propValue line in
  if String.eqb name "SUMMARY" then
    mkEventJson (Some (unescapeText v)) (startDate ev) (endDate ev)
                (description ev) (location ev)
  else if String.eqb name "DTSTART" then
    mkEventJson (summary ev) (parseTime v) (endDate ev)
                (description ev) (location ev)
  else if String.eqb name "DTEND" then
    mkEventJson (summary ev) (startDate ev) (parseTime v)
                (description ev) (location ev)
  else if String.eqb name "DESCRIPTION" then
    mkEventJson (summary ev) (startDate ev) (endDate ev)
                (Some (unescapeText v)) (location ev)
  else if String.eqb name "LOCATION" then
    mkEventJson (summary ev) (startDate ev) (endDate ev)
                (description ev) (Some (unescapeText v))
  else ev.

(** The reader's state: the event block being read, if any, and the events
    read so far. *)
Definition parseLine (st : option EventJson * list EventJson)
  (line : string) : option EventJson * list EventJson :=
  match st with
  | (None, done) =>
      if String.eqb line "BEGIN:VEVENT" then (Some emptyEvent, done)
      else st
  | (Some ev, done) =>
      if String.eqb line "END:VEVENT" then (None, (done ++ [ev])%list)
      else (Some (setProp ev line), done)
  end.

Definition icsToJson (text : string) : list EventJson :=
  snd (fold_left parseLine (splitCRLF text) (None, [])).

End Parse.

End IcsToJson.

(** ** The tool session, [src/mcp-client/index.ts] *)

Module McpClient.

Inductive Role : Type := system | user | assistant | tool.

Record ToolCall : Type := mkToolCall {
  tc_id : string;
  tc_name : string;        (* function.name *)
  tc_arguments : string    (* function.arguments *)
}.

(** [content] is [None] when the endpoint sends [null]. *)
Record ChatMessage : Type := mkChatMessage {
  role : Role;
  content : option string;
  tool_calls : option (list ToolCall);
  tool_call_id : option string
}.

#[warnings="-register-all"]
Inductive JSON : Type :=
| JNull
| JBool (b : bool)
| JNumber (n : Z)
| JString (s : string)
| JArray (items : list JSON)
| JObject (members : list (string * JSON)).

Record Tool : Type := mkTool {
  name : string;
  tool_description : option string;
  inputSchema : JSON
}.

Record FunctionTool : Type := mkFunctionTool {
  ft_name : string;
  ft_description : string;
  ft_parameters : JSON
}.

Inductive ToolChoice : Type := auto | none.

Record ChatCompletionRequest : Type := mkRequest {
  model : string;
  messages : list ChatMessage;
  tools : list FunctionTool;
  tool_choice : ToolChoice
}.

(** [choices], each reduced to its [message]. *)
Record ChatCompletionResponse : Type := mkResponse {
  choices : list ChatMessage
}.

(** The result of [client.callTool]: the [text] of each content item
    ([None] for an item without text). *)
Record ToolResult : Type := mkToolResult {
  result_content : list (option string)
}.

(** What the session asks of the outside, in order. *)
Inductive Event : Type :=
| Connect
| ListTools
| ChatRequest (body : ChatCompletionRequest)
| CallTool (toolName : string) (arguments : JSON)
| ConsoleError
| Close.

(** The collaborators.  Each answers from the history of the session so
    far, and may fail. *)
Record World : Type := mkWorld {
  connect : list Event -> Completion unit;
  listTools : list Event -> Completion (list Tool);
  fetchData : list Event -> ChatCompletionRequest
              -> Completion ChatCompletionResponse;
  callTool : list Event -> string -> JSON -> Completion ToolResult;
  close : list Event -> Completion unit;
  currentDateTime : string;
  OPENAI_MODEL : option string
}.

(** Computations that extend the history and may throw. *)
Definition IO (A : Type) : Type := list Event -> list Event * Completion A.

Definition ret {A} (a : A) : IO A := fun h => (h, Normal a).

Definition throw {A} (e : JSError) : IO A := fun h => (h, Throw e).

Definition bind {A B} (m : IO A) (k : A -> IO B) : IO B :=
  fun h =>
    match m h with
    | (h1, Normal a) => k a h1
    | (h1, Throw e) => (h1, Throw e)
    end.

(** An awaited call: the event is recorded, the collaborator answers. *)
Definition await {A} (e : Event) (answer : list Event -> Completion A)
  : IO A :=
  fun h => ((h ++ [e])%list, answer h).

(** [try { body } finally { fin }] *)
Definition tryFinally {A} (body : IO A) (fin : IO unit) : IO A :=
  fun h =>
    match body h with
    | (h1, r) =>
        match fin h1 with
        | (h2, Normal _) => (h2, r)
        | (h2, Throw e) => (h2, Throw e)
        end
    end.

Declare Scope io_scope.
Delimit Scope io_scope with io.
Notation "x <- c ;; k" := (bind c (fun x => k))
  (at level 61, c at next level, right associativity) : io_scope.

Record LoopState : Type := mkLoopState {
  st_messages : list ChatMessage;
  st_toolCalls : list string;
  st_round : nat
}.

Definition pushMessage (st : LoopState) (m : ChatMessage) : LoopState :=
  mkLoopState (st_messages st ++ [m]) (st_toolCalls st) (st_round st).

Definition pushToolCall (st : LoopState) (n : string) : LoopState :=
  mkLoopState (st_messages st) (st_toolCalls st ++ [n]) (st_round st).

Definition nextRound (st : LoopState) : LoopState :=
  mkLoopState (st_messages st) (st_toolCalls st) (S (st_round st)).

Record Answer : Type := mkAnswer {
  answer : string;
  toolCalls : nat
}.

Definition maxRounds : nat := 5.

Definition toolMessage (toolContent id : string) : ChatMessage :=
  {| role := tool; content := Some toolContent;
     tool_calls := None; tool_call_id := Some id |}.

(** [array.join] writes [undefined] as the empty string. *)
Definition textOf (t : option string) : string :=
  match t with Some s => s | None => "" end.

(** Lines 72-79. *)
Definition toFunctionTool (t : Tool) : FunctionTool :=
  {| ft_name := name t;
     ft_description :=
       if truthy (tool_description t) then textOf (tool_description t)
       else "No description";
     ft_parameters := inputSchema t |}.

Section Session.

(** [JSON.parse]: [None] when it throws a [SyntaxError]. *)
Variable JSON_parse : string -> option JSON.

(** The template literal of lines 88-115, a function of
    [currentDateTime]. *)
Variable systemPrompt : string -> string.

(** Lines 153-160. *)
Definition parseArgs (arguments : string) : IO JSON :=
  match JSON_parse arguments with
  | Some args => ret args
  | None => fun h => ((h ++ [ConsoleError])%list, Normal (JObject []))
  end.

(** The body of the [for] loop, lines 151-175. *)
Definition execToolCall (w : World) (st : LoopState) (toolCall : ToolCall)
  : IO LoopState :=
  (let st1 := pushToolCall st (tc_name toolCall) in
   args <- parseArgs (tc_arguments toolCall) ;;
   result <- await (CallTool (tc_name toolCall) args)
                   (fun h => callTool w h (tc_name toolCall) args) ;;
   let toolContent :=
     join (String LF "") (map textOf (result_content result)) in
   ret (pushMessage st1 (toolMessage toolContent (tc_id toolCall))))%io.

Fixpoint forEachToolCall (w : World) (calls : list ToolCall)
  (st : LoopState) : IO LoopState :=
  match calls with
  | [] => ret st
  | toolCall :: rest =>
      (st' <- execToolCall w st toolCall ;;
       forEachToolCall w rest st')%io
  end.

(** [data.choices[0].message] *)
Definition firstChoice (data : ChatCompletionResponse) : IO ChatMessage :=
  match choices data with
  | m :: _ => ret m
  | [] =>
      throw (TypeError
               "Cannot read properties of undefined (reading 'message')")
  end.

Definition requestBody (w : World) (openaiTools : list FunctionTool)
  (st : LoopState) : ChatCompletionRequest :=
  {| model := if truthy (OPENAI_MODEL w) then textOf (OPENAI_MODEL w)
              else "gpt-4o-mini";
     messages := st_messages st;
     tools := openaiTools;
     tool_choice := auto |}.

(** One pass through the body of the [while] loop, lines 125-178: the
    state after it, and whether the loop goes on ([false] is [break]). *)
Definition oneRound (w : World) (openaiTools : list FunctionTool)
  (st : LoopState) : IO (LoopState * bool) :=
  (let body := requestBody w openaiTools st in
   data <- await (ChatRequest body) (fun h => fetchData w h body) ;;
   message <- firstChoice data ;;
   let st1 := pushMessage st message in
   match tool_calls message with
   | Some (toolCall :: rest) =>
       st2 <- forEachToolCall w (toolCall :: rest) st1 ;;
       ret (nextRound st2, true)
   | _ => ret (st1, false)
   end)%io.

(** The [while] loop, lines 124-179; [remaining] is
    [maxRounds - round]. *)
Fixpoint whileRounds (w : World) (openaiTools : list FunctionTool)
  (remaining : nat) (st : LoopState) : IO LoopState :=
  match remaining with
  | O => ret st
  | S remaining' =>
      (next <- oneRound w openaiTools st ;;
       if snd next then whileRounds w openaiTools remaining' (fst next)
       else ret (fst next))%io
  end.

(** Lines 65-179: the body of the [try] up to the end of the loop. *)
Definition session (w : World) (prompt : string) : IO LoopState :=
  (_ <- await Connect (connect w) ;;
   toolList <- await ListTools (listTools w) ;;
   let openaiTools := map toFunctionTool toolList in
   let seed :=
     [ mkChatMessage system (Some (systemPrompt (currentDateTime w)))
                     None None;
       mkChatMessage user (Some prompt) None None ] in
   whileRounds w openaiTools maxRounds (mkLoopState seed [] 0))%io.

Definition lastMessage (ms : list ChatMessage) : option ChatMessage :=
  nth_error ms (List.length ms - 1).

(** Lines 181-184. *)
Definition finalAnswer (st : LoopState) : IO Answer :=
  match lastMessage (st_messages st) with
  | Some finalMessage =>
      let text :=
        if truthy (content finalMessage) then textOf (content finalMessage)
        else "" in
      ret {| answer := trim text;
             toolCalls := List.length (st_toolCalls st) |}
  | None =>
      throw (TypeError
               "Cannot read properties of undefined (reading 'content')")
  end.

(** [callMcpClient] from the [try] on (lines 64-187). *)
Definition callMcpClient (w : World) (prompt : string) : IO Answer :=
  tryFinally
    (st <- session w prompt ;; finalAnswer st)%io
    (await Close (close w)).

End Session.

End McpClient.

(** ** The lines of a record, named

    The array [lines] of [generateICal] for an event whose title is [t]:
    the header, the lines of the event, and the two closing lines. *)

Definition eventLines (zoneOffset : Z -> Z) (randomUUID : string) (now : Z)
  (input : ICalInput) (t : string) : list string :=
  let uidLine := "UID:" ++ finalUid randomUUID input in
  let stamp := "DTSTAMP:" ++ toCalDav zoneOffset (Some (TimeValue now)) in
  let dtstart :=
    "DTSTART;TZID=Europe/Helsinki:" ++ toCalDav zoneOffset (start input) in
  let dtend :=
    "DTEND;TZID=Europe/Helsinki:" ++ toCalDav zoneOffset (end_ input) in
  let summaryLine := "SUMMARY:" ++ escapeText t in
  ([uidLine; stamp; dtstart; dtend; summaryLine]
   ++ optionalLine "DESCRIPTION:" (description input)
   ++ optionalLine "LOCATION:" (location input))%list.

Definition recordLines (zoneOffset : Z -> Z) (randomUUID : string) (now : Z)
  (input : ICalInput) (t : string) : list string :=
  ((headerLines ++ eventLines zoneOffset randomUUID now input t
    ++ ["END:VEVENT"]) ++ ["END:VCALENDAR"])%list.

(** ** Numerals of fixed width

    What [padStart] writes for a number that fits the width. *)

Definition digitChar (k : Z) : ascii := ascii_of_nat (48 + Z.to_nat k).

Definition twoDigits (n : Z) : string :=
  String (digitChar (n / 10)) (String (digitChar (n mod 10)) "").

Definition fourDigits (n : Z) : string :=
  String (digitChar (n / 1000))
    (String (digitChar (n / 100 mod 10))
       (String (digitChar (n / 10 mod 10))
          (String (digitChar (n mod 10)) ""))).

(** [P] holds of 0, ..., [k - 1]. *)
Definition checkBelow (P : Z -> bool) (k : Z) : bool :=
  forallb P (map Z.of_nat (seq 0 (Z.to_nat k))).

(** The fields of a civil time are within their ranges. *)
Definition inRange (c : DateObj) : Prop :=
  0 <= year c <= 9999 /\ 1 <= month c <= 12 /\ 1 <= day c <= 31
  /\ 0 <= hour c <= 23 /\ 0 <= minute c <= 59 /\ 0 <= second c <= 59.

(** Two events agree on the fields a reader is to recover. *)
Definition sameEvent (a b : ICalInput) : Prop :=
  title a = title b /\ start a = start b /\ end_ a = end_ b
  /\ description a = description b /\ location a = location b.

(** ** Sample inputs *)

Module Samples.

(** 2024-10-27 00:30:00 UTC and 01:30:00 UTC: 03:30 in Helsinki, before
    and after the clocks go back. *)
Definition firstPass : Z := 1729989000000.
Definition secondPass : Z := 1729992600000.

(** 2024-07-03 09:46:40 UTC, a summer instant. *)
Definition july : Z := 1720000000000.

Definition teamSync : ICalInput :=
  {| title := Some "Team Sync; Q3";
     start := Some (TimeValue 1730000000000);
     end_ := Some (TimeValue 1730003600000);
     description := Some (String "a" (String LF "b"));
     location := Some "Room 1, floor 2";
     uid := None;
     domain := None |}.

Definition emptyDescription : ICalInput :=
  {| title := Some "Lunch";
     start := Some (TimeValue 1730000000000);
     end_ := Some (TimeValue 1730003600000);
     description := Some "";
     location := Some "";
     uid := None;
     domain := None |}.

Definition noStart : ICalInput :=
  {| title := Some "Lunch";
     start := None;
     end_ := Some (TimeValue 1730003600000);
     description := None;
     location := None;
     uid := None;
     domain := None |}.

Definition at_ (ts : Z) : ICalInput :=
  {| title := Some "Lunch";
     start := Some (TimeValue ts);
     end_ := Some (TimeValue 1730003600000);
     description := None;
     location := None;
     uid := Some "lunch@example.org";
     domain := None |}.

Definition autumnCall : CreateEventInput :=
  {| ce_start := "2024-10-27T03:30:00";
     ce_end := None;
     ce_title := "Lunch";
     ce_description := None;
     ce_location := None |}.

Definition juneCall : CreateEventInput :=
  {| ce_start := "2024-06-03T12:00:00";
     ce_end := None;
     ce_title := "Lunch";
     ce_description := None;
     ce_location := None |}.

End Samples.

(** ** Histories of a session, observed *)

Import McpClient.

Definition isChat (e : Event) : bool :=
  match e with ChatRequest _ => true | _ => false end.

Definition isCall (e : Event) : bool :=
  match e with CallTool _ _ => true | _ => false end.

Definition isClose (e : Event) : bool :=
  match e with Close => true | _ => false end.

Definition count (p : Event -> bool) (h : list Event) : nat :=
  List.length (filter p h).

(** The arguments an invocation is executed with, and what its execution
    adds to the history. *)
Definition argsOrEmpty (JSON_parse : string -> option JSON)
  (arguments : string) : JSON :=
  match JSON_parse arguments with
  | Some args => args
  | None => JObject []
  end.

Definition callEvent (JSON_parse : string -> option JSON)
  (toolCall : ToolCall) : Event :=
  CallTool (tc_name toolCall)
           (argsOrEmpty JSON_parse (tc_arguments toolCall)).

Definition logOf (JSON_parse : string -> option JSON)
  (toolCall : ToolCall) : list Event :=
  match JSON_parse (tc_arguments toolCall) with
  | Some _ => []
  | None => [ConsoleError]
  end.

Definition eventsOf (JSON_parse : string -> option JSON)
  (toolCall : ToolCall) : list Event :=
  (logOf JSON_parse toolCall ++ [callEvent JSON_parse toolCall])%list.

(** The state after an invocation whose result is [result]. *)
Definition afterCall (st : LoopState) (toolCall : ToolCall)
  (result : ToolResult) : LoopState :=
  mkLoopState
    (st_messages st
     ++ [toolMessage
           (join (String LF "") (map textOf (result_content result)))
           (tc_id toolCall)])%list
    (st_toolCalls st ++ [tc_name toolCall])%list
    (st_round st).

(** The tool-role messages for invocations and the texts of their
    results, pairwise. *)
Definition toolMessages (calls : list ToolCall) (texts : list string)
  : list ChatMessage :=
  map (fun p => toolMessage (snd p) (tc_id (fst p))) (combine calls texts).

(** A computation only extends the history, never closes the transport,
    and sends at most [n] requests to the chat endpoint. *)
Definition effects {A} (n : nat) (m : IO A) : Prop :=
  forall h, exists mid,
    fst (m h) = (h ++ mid)%list
    /\ Forall (fun e => isClose e = false) mid
    /\ (count isChat mid <= n)%nat.

(** Collaborators that do not fail. *)
Definition peerReachable (w : World) : Prop :=
  (forall h, connect w h = Normal tt)
  /\ (forall h, exists toolList, listTools w h = Normal toolList)
  /\ (forall h, close w h = Normal tt).

Definition toolsNeverFail (w : World) : Prop :=
  forall h n args, exists result, callTool w h n args = Normal result.

Definition chatAnswers (w : World) : Prop :=
  forall h body, exists m rest,
    fetchData w h body = Normal (mkResponse (m :: rest)).

(** *** What happened in a run

    The calls of a history, each with the history before it: the history
    at which the collaborator was asked. *)
Fixpoint callsOf (before h : list Event) : list (list Event * Event) :=
  match h with
  | [] => []
  | e :: rest => (before, e) :: callsOf (before ++ [e])%list rest
  end.

(** [P] holds of every call of the history. *)
Definition everyCall (P : list Event -> Event -> bool) (h : list Event)
  : bool :=
  forallb (fun c => P (fst c) (snd c)) (callsOf [] h).

(** The collaborator did not fail when it was asked. *)
Definition answered (w : World) (h : list Event) (e : Event) : bool :=
  match e with
  | Connect => negb (isThrow (connect w h))
  | ListTools => negb (isThrow (listTools w h))
  | ChatRequest body => negb (isThrow (fetchData w h body))
  | CallTool n args => negb (isThrow (callTool w h n args))
  | ConsoleError => true
  | Close => negb (isThrow (close w h))
  end.

(** The chat endpoint, when it was asked, returned a message with
    invocations. *)
Definition asksForTools (w : World) (h : list Event) (e : Event) : bool :=
  match e with
  | ChatRequest body =>
      match fetchData w h body with
      | Normal (mkResponse (m :: _)) =>
          match tool_calls m with
          | Some (_ :: _) => true
          | _ => false
          end
      | _ => false
      end
  | _ => true
  end.

(** *** The invocations of one round *)

(** The text of a tool's result, lines 167-170. *)
Definition resultText (result : ToolResult) : string :=
  join (String LF "") (map textOf (result_content result)).

(** What the tool answers to the invocation [c], the [i]-th of [calls],
    in a round whose invocations begin at the history [h]: it is asked
    after the events of the invocations before it and the log of its own
    payload. *)
Definition answerAt (JSON_parse : string -> option JSON) (w : World)
  (h : list Event) (calls : list ToolCall) (i : nat) (c : ToolCall)
  : Completion ToolResult :=
  callTool w
    (h ++ flat_map (eventsOf JSON_parse) (firstn i calls)
       ++ logOf JSON_parse c)%list
    (tc_name c) (argsOrEmpty JSON_parse (tc_arguments c)).

(** The invocations that carry the id [id]. *)
Definition withId (id : string) (calls : list ToolCall) : list ToolCall :=
  filter (fun c => String.eqb (tc_id c) id) calls.

Module SampleWorld.

(** A [JSON.parse] that knows the empty object only. *)
Definition parseEmptyObject (s : string) : option JSON :=
  if String.eqb s "{}" then Some (JObject []) else None.

Definition promptFor (currentDateTime : string) : string :=
  "Current date and time in Europe/Helsinki: " ++ currentDateTime.

Definition listCall : ToolCall :=
  mkToolCall "call_1" "listEvents" "{not json".

Definition asksForList : ChatMessage :=
  mkChatMessage assistant None (Some [listCall]) None.

(** Every round asks for [listEvents] with a payload that is no JSON; the
    tool answers [toolText]. *)
Definition indecisive (toolText : string) : World :=
  {| connect := fun _ => Normal tt;
     listTools := fun _ => Normal [mkTool "listEvents" None (JObject [])];
     fetchData := fun _ _ => Normal (mkResponse [asksForList]);
     callTool := fun _ _ _ => Normal (mkToolResult [Some toolText]);
     close := fun _ => Normal tt;
     currentDateTime := "2024-06-03 12:00:00";
     OPENAI_MODEL := None |}.

(** The same, with a tool that fails once the fifth request has gone to
    the chat endpoint. *)
Definition failsInLastRound : World :=
  {| connect := fun _ => Normal tt;
     listTools := fun _ => Normal [mkTool "listEvents" None (JObject [])];
     fetchData := fun _ _ => Normal (mkResponse [asksForList]);
     callTool := fun h _ _ =>
       if Nat.eqb (count isChat h) 5
       then Throw (ExternalFailure "calendar unreachable")
       else Normal (mkToolResult [Some "ok"]);
     close := fun _ => Normal tt;
     currentDateTime := "2024-06-03 12:00:00";
     OPENAI_MODEL := None |}.

Definition createCall : ToolCall :=
  mkToolCall "call_2" "createEvent" "{}".

(** The same id on two invocations. *)
Definition listAgain : ToolCall :=
  mkToolCall "call_1" "listEvents" "{}".

Definition asks (calls : list ToolCall) : ChatMessage :=
  mkChatMessage assistant None (Some calls) None.

(** A chat endpoint that answers [m] every time; the tool [failing] fails,
    every other tool answers with its own name. *)
Definition answering (m : ChatMessage) (failing : string) : World :=
  {| connect := fun _ => Normal tt;
     listTools := fun _ => Normal [mkTool "listEvents" None (JObject [])];
     fetchData := fun _ _ => Normal (mkResponse [m]);
     callTool := fun _ n _ =>
       if String.eqb n failing
       then Throw (ExternalFailure "calendar unreachable")
       else Normal (mkToolResult [Some n]);
     close := fun _ => Normal tt;
     currentDateTime := "2024-06-03 12:00:00";
     OPENAI_MODEL := None |}.

(** A chat endpoint that asks for [listEvents] in its first five answers
    and gives its answer in words from the sixth on. *)
Definition asksFiveTimes : World :=
  {| connect := fun _ => Normal tt;
     listTools := fun _ => Normal [mkTool "listEvents" None (JObject [])];
     fetchData := fun h _ =>
       if Nat.ltb (count isChat h) 5
       then Normal (mkResponse [asksForList])
       else Normal (mkResponse
                      [mkChatMessage assistant (Some "Nothing today.")
                         None None]);
     callTool := fun _ _ _ => Normal (mkToolResult [Some "ok"]);
     close := fun _ => Normal tt;
     currentDateTime := "2024-06-03 12:00:00";
     OPENAI_MODEL := None |}.

Definition seedState : LoopState :=
  mkLoopState [mkChatMessage user (Some "What is on today?") None None] [] 0.

End SampleWorld.

(** ** Further observations on the codec *)

Module CodecExtra.

(** The characters [escapeText] rewrites. *)
Definition needsEscape (c : ascii) : bool := isSpecial c || isLF c.

Fixpoint countChars (p : ascii -> bool) (s : string) : nat :=
  match s with
  | "" => O
  | String c rest => ((if p c then 1 else 0) + countChars p rest)%nat
  end.

Definition isDigit (c : ascii) : bool :=
  match digitValue c with Some _ => true | None => false end.

(** The lines of a record after its UID line. *)
Definition linesAfterUid (zoneOffset : Z -> Z) (now : Z) (input : ICalInput)
  (t : string) : list string :=
  let stamp := "DTSTAMP:" ++ toCalDav zoneOffset (Some (TimeValue now)) in
  let dtstart :=
    "DTSTART;TZID=Europe/Helsinki:" ++ toCalDav zoneOffset (start input) in
  let dtend :=
    "DTEND;TZID=Europe/Helsinki:" ++ toCalDav zoneOffset (end_ input) in
  let summaryLine := "SUMMARY:" ++ escapeText t in
  ([stamp; dtstart; dtend; summaryLine]
   ++ optionalLine "DESCRIPTION:" (description input)
   ++ optionalLine "LOCATION:" (location input)
   ++ ["END:VEVENT"; "END:VCALENDAR"])%list.

Definition withUid (input : ICalInput) (u : string) : ICalInput :=
  {| title := title input; start := start input; end_ := end_ input;
     description := description input; location := location input;
     uid := Some u; domain := domain input |}.

Definition bit (b : bool) : nat := if b then 1%nat else 0%nat.

End CodecExtra.

(** ** Further observations on the tool session *)

Module SessionExtra.

(** The requests sent to the chat endpoint, in order. *)
Definition chatBodies (h : list Event) : list ChatCompletionRequest :=
  flat_map (fun e => match e with ChatRequest b => [b] | _ => [] end) h.

Definition isPrefix {A} (a b : list A) : Prop :=
  exists rest, b = (a ++ rest)%list.

(** Each list extends the one before it. *)
Fixpoint growing {A} (ls : list (list A)) : Prop :=
  match ls with
  | a :: tl =>
      match tl with
      | b :: _ => isPrefix a b /\ growing tl
      | [] => True
      end
  | [] => True
  end.

(** The conversation a session starts from (lines 85-118). *)
Definition seed (systemPrompt : string -> string) (w : World)
  (prompt : string) : list ChatMessage :=
  [ mkChatMessage system (Some (systemPrompt (currentDateTime w))) None None;
    mkChatMessage user (Some prompt) None None ].

Definition modelOf (w : World) : string :=
  if truthy (OPENAI_MODEL w) then textOf (OPENAI_MODEL w)
  else "gpt-4o-mini".

(** An answer with white space around it: a no-break space and a space
    before, a space, an ideographic space and a line feed after. *)
Definition paddedAnswer : string :=
  utf8 160 ++ " Nothing today. " ++ utf8 12288 ++ String LF "".

(** A chat endpoint that answers at once, with [text] and no tool calls. *)
Definition decisive (text : option string) : World :=
  {| connect := fun _ => Normal tt;
     listTools := fun _ => Normal [mkTool "listEvents" None (JObject [])];
     fetchData := fun _ _ =>
       Normal (mkResponse [mkChatMessage assistant text None None]);
     callTool := fun _ _ _ => Normal (mkToolResult [Some "unused"]);
     close := fun _ => Normal tt;
     currentDateTime := "2024-06-03 12:00:00";
     OPENAI_MODEL := None |}.

(** A peer that cannot be reached. *)
Definition unreachable : World :=
  {| connect := fun _ => Throw (ExternalFailure "connection refused");
     listTools := fun _ => Normal [];
     fetchData := fun _ _ => Normal (mkResponse []);
     callTool := fun _ _ _ => Normal (mkToolResult []);
     close := fun _ => Normal tt;
     currentDateTime := "2024-06-03 12:00:00";
     OPENAI_MODEL := None |}.

(** A transport whose closing fails. *)
Definition closeFails : World :=
  {| connect := fun _ => Normal tt;
     listTools := fun _ => Normal [mkTool "listEvents" None (JObject [])];
     fetchData := fun _ _ =>
       Normal (mkResponse [mkChatMessage assistant (Some "Done.") None None]);
     callTool := fun _ _ _ => Normal (mkToolResult [Some "unused"]);
     close := fun _ => Throw (ExternalFailure "socket hang up");
     currentDateTime := "2024-06-03 12:00:00";
     OPENAI_MODEL := None |}.

End SessionExtra.

(** ** The tool handlers (ical-lib.ts, lines 233-364) *)

Module McpServer.

(** [(error as Error).message] *)
Definition messageOf (e : JSError) : string :=
  match e with
  | TypeError msg => msg
  | ExternalFailure msg => msg
  end.

(** What a handler reads of an element of the result of [icsToJson]. *)
Record ParsedEvent : Type := mkParsedEvent {
  pe_startDate : option string;
  pe_endDate : option string
}.

(** The calendar client, the parser and the serializer the handlers call;
    none is among the sources.  The calls can fail. *)
Record Backend : Type := mkBackend {
  createEvent : ICalInput -> Completion string;
  getEventByUrl : string -> Completion string;
  listEvents : Completion (list string);
  listEventsByDateRange : JSDate -> JSDate -> Completion (list string);
  icsToJson : string -> Completion (list ParsedEvent);
  JSON_stringify : list (list ParsedEvent) -> string
}.

(** The calls made to the calendar client, in order. *)
Inductive BackendCall : Type :=
| CreateEvent (event : ICalInput)
| GetEventByUrl (url : string)
| ListEvents
| ListEventsByDateRange (startDate endDate : JSDate).

(** The reply of a handler: [{ content: [{ type: "text", text }] }]. *)
Definition reply (text : string) : McpClient.ToolResult :=
  McpClient.mkToolResult [Some text].

Definition quote : string := String "034"%char "".

(** A computation of a handler: the calls made, and how it ended. *)
Definition Step (A : Type) : Type := list BackendCall * Completion A.

Definition call {A} (c : BackendCall) (answer : Completion A) : Step A :=
  ([c], answer).

Definition pureS {A} (c : Completion A) : Step A := ([], c).

Definition bindS {A B} (m : Step A) (k : A -> Step B) : Step B :=
  match m with
  | (calls, Normal a) =>
      match k a with
      | (calls', r) => ((calls ++ calls')%list, r)
      end
  | (calls, Throw e) => (calls, Throw e)
  end.

(** [try { body } catch (error) { return handler(error) }] *)
Definition tryCatch {A} (body : Step A) (handler : JSError -> A)
  : list BackendCall * A :=
  match body with
  | (calls, Normal a) => (calls, a)
  | (calls, Throw e) => (calls, handler e)
  end.

Declare Scope step_scope.
Delimit Scope step_scope with step.
Notation "x <- c ;; k" := (bindS c (fun x => k))
  (at level 61, c at next level, right associativity) : step_scope.

(** [rawEvents.map((event) => icsToJson(event.data))] *)
Fixpoint parseAll (b : Backend) (rawEvents : list string)
  : Completion (list (list ParsedEvent)) :=
  match rawEvents with
  | [] => Normal []
  | data :: rest =>
      (parsed <- icsToJson b data ;;
       others <- parseAll b rest ;;
       Normal (parsed :: others))%completion
  end.

Section Handlers.

Variable zoneOffset : Z -> Z.
Variable b : Backend.

(** Lines 259-261 and 267. *)
Definition createdText (title : string) (parsed : list ParsedEvent)
  : Completion string :=
  match parsed with
  | [] =>
      Throw (TypeError
               "Cannot read properties of undefined (reading 'startDate')")
  | first :: _ =>
      if negb (truthy (pe_startDate first))
         || negb (truthy (pe_endDate first))
      then Throw (ExternalFailure "Event not created")
      else
        Normal ("Event created successfully for " ++ quote ++ title ++ quote
                ++ " from " ++ McpClient.textOf (pe_startDate first)
                ++ " to " ++ McpClient.textOf (pe_endDate first) ++ ".")
  end.

(** The [createEvent] handler, lines 241-282; [tsNow] is the clock. *)
Definition createEventHandler (tsNow : Z) (input : CreateEventInput)
  : list BackendCall * McpClient.ToolResult :=
  let event := createEventArgs zoneOffset tsNow input in
  tryCatch
    (eventUrl <- call (CreateEvent event) (createEvent b event) ;;
     data <- call (GetEventByUrl eventUrl) (getEventByUrl b eventUrl) ;;
     newEventObject <- pureS (icsToJson b data) ;;
     text <- pureS (createdText (ce_title input) newEventObject) ;;
     pureS (Normal (reply text)))%step
    (fun error => reply ("Failed to create event: " ++ messageOf error)).

(** The [listEvents] handler, lines 293-319. *)
Definition listEventsHandler : list BackendCall * McpClient.ToolResult :=
  tryCatch
    (rawEvents <- call ListEvents (listEvents b) ;;
     parsedEvents <- pureS (parseAll b rawEvents) ;;
     pureS (Normal (reply ("Events retrieved successfully: "
                           ++ JSON_stringify b parsedEvents))))%step
    (fun error => reply ("Failed to list events: " ++ messageOf error)).

(** The [listEventsByRange] handler, lines 330-363. *)
Definition listEventsByRangeHandler (tsNow : Z) (startText endText : string)
  : list BackendCall * McpClient.ToolResult :=
  tryCatch
    (let startDate := fromISO zoneOffset tsNow startText in
     let endDate := fromISO zoneOffset tsNow endText in
     rawEvents <- call (ListEventsByDateRange startDate endDate)
                       (listEventsByDateRange b startDate endDate) ;;
     parsedEvents <- pureS (parseAll b rawEvents) ;;
     pureS (Normal (reply ("Events retrieved successfully for range "
                           ++ startText ++ " to " ++ endText ++ ": "
                           ++ JSON_stringify b parsedEvents))))%step
    (fun error =>
       reply ("Failed to list events by date range: " ++ messageOf error)).

End Handlers.

End McpServer.

(** ** The middlewares (ical-lib.ts, lines 98-175) *)

Module Middlewares.

(** [CustomError]: an [Error] with a [status].  The class is not among the
    sources; [status] is optional as on any value handed to the error
    handler, and [stack] is what the runtime recorded. *)
Record CustomError : Type := mkCustomError {
  message : string;
  status : option Z;
  stack : option string
}.

(** [new CustomError(message, status)], with the stack of the place. *)
Definition newCustomError (trace : option string) (msg : string)
  (code : Z) : CustomError :=
  mkCustomError msg (Some code) trace.

(** The response the error handler sends. *)
Record ErrorResponse : Type := mkErrorResponse {
  statusCode : Z;
  body_message : string;
  body_stack : option string
}.

(** [notFound], lines 103-106: the error handed to [next]. *)
Definition notFound (trace : option string) (originalUrl : string)
  : CustomError :=
  newCustomError trace ("🔍 - Not Found - " ++ originalUrl) 404.

(** [err.status && err.status >= 400 ? err.status : 500] *)
Definition statusOf (err : CustomError) : Z :=
  match status err with
  | Some n => if negb (n =? 0) && (400 <=? n) then n else 500
  | None => 500
  end.

(** [errorHandler], lines 108-121; [NODE_ENV] is the environment
    variable. *)
Definition errorHandler (NODE_ENV : option string) (err : CustomError)
  : ErrorResponse :=
  {| statusCode := statusOf err;
     body_message := message err;
     body_stack :=
       match NODE_ENV with
       | Some env =>
           if String.eqb env "production" then Some "🥞" else stack err
       | None => stack err
       end |}.

Record AudioFile : Type := mkAudioFile {
  originalname : string;
  buffer : list Byte.byte
}.

(** What the middleware reads of the request: [req.files?.audio] and
    [req.body.prompt]. *)
Record Request : Type := mkRequest {
  audio : option (list AudioFile);
  prompt : option string
}.

(** The environment: the address of the proxy, and the transcription
    service behind [fetchData], which answers with a text or fails. *)
Record Env : Type := mkEnv {
  OPENAI_PROXY_URL : option string;
  transcribe : string -> AudioFile -> Completion string
}.

Inductive Effect : Type :=
| Fetch (url : string) (file : AudioFile)
| ConsoleError.

(** How the middleware hands on: [next()] or [next(error)]. *)
Inductive Next : Type :=
| NextOk
| NextError (e : CustomError).

Definition transcriptionFailed (trace : option string) : CustomError :=
  newCustomError trace "Failed to transcribe audio" 500.

(** Lines 163-166. *)
Definition composePrompt (existing : option string) (text : string)
  : string :=
  if truthy existing
  then McpClient.textOf existing
       ++ String LF (String LF "[Audio transcription: ") ++ text ++ "]"
  else text.

(** What the [try] block throws: an error of its own making, or the
    failure of [fetchData]. *)
Inductive Thrown : Type :=
| ThrownCustom (e : CustomError)
| ThrownOther (e : JSError).

(** The [try] block, lines 129-168: the effects, and either what was
    thrown or the request as it is left with the call of [next]. *)
Definition transcriptionBody (trace : option string) (env : Env)
  (req : Request) : list Effect * (Thrown + Request * Next) :=
  match audio req with
  | None | Some [] => ([], inr (req, NextOk))
  | Some (audioFile :: _) =>
      if negb (truthy (OPENAI_PROXY_URL env)) then
        ([], inl (ThrownCustom
                    (newCustomError trace "OpenAI proxy URL not configured"
                       500)))
      else
        let url := McpClient.textOf (OPENAI_PROXY_URL env)
                   ++ "/v1/audio/transcriptions" in
        match transcribe env url audioFile with
        | Normal text =>
            ([Fetch url audioFile],
             inr (mkRequest (audio req)
                    (Some (composePrompt (prompt req) text)),
                  NextOk))
        | Throw e => ([Fetch url audioFile], inl (ThrownOther e))
        end
  end.

(** [audioTranscription], lines 123-173: the [catch] logs and hands on an
    error of its own. *)
Definition audioTranscription (trace : option string) (env : Env)
  (req : Request) : list Effect * (Request * Next) :=
  match transcriptionBody trace env req with
  | (effects, inr done) => (effects, done)
  | (effects, inl _) =>
      ((effects ++ [ConsoleError])%list,
       (req, NextError (transcriptionFailed trace)))
  end.

End Middlewares.

(** ** Sample collaborators of the server *)

Module SampleServer.

Import McpServer.

(** A calendar that stores the event and then cannot be read. *)
Definition readBackFails : Backend :=
  {| createEvent := fun _ => Normal "/calendar/1.ics";
     getEventByUrl := fun _ => Throw (ExternalFailure "Not Found");
     listEvents := Normal [];
     listEventsByDateRange := fun _ _ => Normal [];
     icsToJson := fun _ => Normal [];
     JSON_stringify := fun _ => "[]" |}.

(** A calendar of three records, the second of which does not parse. *)
Definition oneBadRecord : Backend :=
  {| createEvent := fun _ => Normal "/calendar/1.ics";
     getEventByUrl := fun _ => Normal "good";
     listEvents := Normal ["good"; "bad"; "good"];
     listEventsByDateRange := fun _ _ => Normal ["good"; "bad"; "good"];
     icsToJson := fun data =>
       if String.eqb data "good"
       then Normal [mkParsedEvent (Some "2024-06-03T12:00:00")
                      (Some "2024-06-03T13:00:00")]
       else Throw (ExternalFailure "invalid ical body");
     JSON_stringify := fun ps =>
       if Nat.eqb (List.length ps) 0 then "[]" else "[...]" |}.

Definition withAudio (typed : option string) : Middlewares.Request :=
  Middlewares.mkRequest
    (Some [Middlewares.mkAudioFile "memo.webm" []]) typed.

Definition hears (text : string) : Middlewares.Env :=
  Middlewares.mkEnv (Some "http://proxy.local")
    (fun _ _ => Normal text).

Definition notConfigured : Middlewares.Env :=
  Middlewares.mkEnv None (fun _ _ => Normal "never asked").

End SampleServer.

(** ** The local time a caller asks for *)

Module Asked.

(** A text of the schema's pattern without its dashes and colons: the form
    [toCalDav] writes. *)
Definition compactIso (text : string) : string :=
  substring 0 4 text ++ substring 5 2 text ++ substring 8 2 text ++ "T"
  ++ substring 11 2 text ++ substring 14 2 text ++ substring 17 2 text.

(** The local time [c] exists in the zone: [fixOffset] finds an instant
    whose local time it is, from the offset at [tsNow]. *)
Definition notSkipped (zoneOffset : Z -> Z) (tsNow : Z) (c : DateObj)
  : Prop :=
  let localTS := objToLocalTS c in
  let o := zoneOffset tsNow in
  let o2 := zoneOffset (localTS - o * 60 * 1000) in
  o2 = o \/ zoneOffset (localTS - o2 * 60 * 1000) = o2.

(** A text that names a time of day of a day of the calendar, one that
    exists in the zone. *)
Definition names (zoneOffset : Z -> Z) (tsNow : Z) (text : string)
  (c : DateObj) : Prop :=
  isoFields text = Some c
  /\ validFields c = true
  /\ hour c <= 23
  /\ notSkipped zoneOffset tsNow c.

Definition februaryThirtieth : CreateEventInput :=
  {| ce_start := "2024-02-30T10:00:00";
     ce_end := None;
     ce_title := "Lunch";
     ce_description := None;
     ce_location := None |}.

Definition withEnd : CreateEventInput :=
  {| ce_start := "2024-06-03T12:00:00";
     ce_end := Some "2024-06-03T12:45:00";
     ce_title := "Lunch";
     ce_description := None;
     ce_location := None |}.

End Asked.

(** * Proofs *)

(** ** Strings *)

Section StringFacts.

Lemma append_nil_r (s : string) : s ++ "" = s.
Proof. induction s as [|c s IH]; simpl; congruence. Qed.

Lemma append_assoc (a b c : string) : (a ++ b) ++ c = a ++ (b ++ c).
Proof. induction a as [|x a IH]; simpl; congruence. Qed.

Lemma replaceAll_app p f (a b : string) :
  replaceAll p f (a ++ b) = replaceAll p f a ++ replaceAll p f b.
Proof.
  induction a as [|c a IH]; simpl; [reflexivity|].
  now rewrite IH, append_assoc.
Qed.

Lemma allChars_app p (a b : string) :
  allChars p (a ++ b) = allChars p a && allChars p b.
Proof.
  induction a as [|c a IH]; simpl; [reflexivity|].
  now rewrite IH, andb_assoc.
Qed.

Lemma noLF_app (a b : string) : noLF (a ++ b) = noLF a && noLF b.
Proof. apply allChars_app. Qed.

Lemma noLF_cons c s : noLF (String c s) = negb (isLF c) && noLF s.
Proof. reflexivity. Qed.

Lemma isSpecial_cases c :
  isSpecial c = true -> c = backslash \/ c = ","%char \/ c = ";"%char.
Proof.
  unfold isSpecial. rewrite !orb_true_iff, !Ascii.eqb_eq. tauto.
Qed.

Lemma isSpecial_not_LF c : isSpecial c = true -> isLF c = false.
Proof.
  intros H. destruct (isSpecial_cases c H) as [-> | [-> | ->]]; reflexivity.
Qed.

Lemma isSpecial_backslash : isSpecial backslash = true.
Proof. reflexivity. Qed.

Lemma not_special_not_backslash c :
  isSpecial c = false -> Ascii.eqb c backslash = false.
Proof.
  unfold isSpecial. rewrite !orb_false_iff. tauto.
Qed.

(** [trimStart] drops a white-space character of any length in bytes. *)
Lemma trimStart_white_space (cp : N) (s : string) :
  In cp whiteSpaceCodePoints -> trimStart (utf8 cp ++ s) = trimStart s.
Proof.
  intros H. unfold whiteSpaceCodePoints in H. cbn [In] in H.
  repeat (destruct H as [<- | H]; [reflexivity|]). contradiction.
Qed.

(** A text of white space only is trimmed to nothing. *)
Lemma trim_white_space (cp : N) :
  In cp whiteSpaceCodePoints -> trim (utf8 cp) = "".
Proof.
  intros H. unfold trim.
  rewrite <- (append_nil_r (utf8 cp)), (trimStart_white_space cp "" H).
  reflexivity.
Qed.

End StringFacts.

(** ** [escapeText] *)

Section EscapeFacts.

Lemma escapeText_cons c s :
  escapeText (String c s) = escapeChar c ++ escapeText s.
Proof.
  unfold escapeText, escapeChar. simpl.
  rewrite replaceAll_app.
  destruct (isSpecial c) eqn:Hs.
  - simpl. rewrite (isSpecial_not_LF c Hs). reflexivity.
  - simpl. destruct (isLF c); reflexivity.
Qed.

Lemma escapeText_spec s : escapeText s = escapeSpec s.
Proof.
  induction s as [|c s IH]; [reflexivity|].
  rewrite escapeText_cons, IH. reflexivity.
Qed.

Lemma wellEscaped_escapeSpec s : wellEscaped (escapeSpec s) = true.
Proof.
  induction s as [|c s IH]; [reflexivity|].
  simpl. unfold escapeChar.
  destruct (isSpecial c) eqn:Hs.
  - simpl. rewrite Hs, IH. reflexivity.
  - destruct (isLF c) eqn:Hl.
    + simpl. exact IH.
    + simpl. rewrite (not_special_not_backslash c Hs), Hs, Hl, IH.
      reflexivity.
Qed.

Lemma noLF_escapeSpec s : noLF (escapeSpec s) = true.
Proof.
  induction s as [|c s IH]; [reflexivity|].
  simpl. rewrite noLF_app, IH, andb_true_r. unfold escapeChar.
  destruct (isSpecial c) eqn:Hs.
  - rewrite !noLF_cons, (isSpecial_not_LF c Hs). reflexivity.
  - destruct (isLF c) eqn:Hl; [reflexivity|].
    rewrite noLF_cons, Hl. reflexivity.
Qed.

Lemma noLF_escapeText s : noLF (escapeText s) = true.
Proof. rewrite escapeText_spec. apply noLF_escapeSpec. Qed.

Lemma unescape_escapeSpec s :
  IcsToJson.unescapeText (escapeSpec s) = s.
Proof.
  induction s as [|c s IH]; [reflexivity|].
  simpl. unfold escapeChar.
  destruct (isSpecial c) eqn:Hs.
  - simpl. rewrite IH.
    destruct (isSpecial_cases c Hs) as [-> | [-> | ->]]; reflexivity.
  - destruct (isLF c) eqn:Hl.
    + simpl. rewrite IH. apply Ascii.eqb_eq in Hl. now subst c.
    + simpl. rewrite (not_special_not_backslash c Hs), IH. reflexivity.
Qed.

Lemma unescape_escapeText s : IcsToJson.unescapeText (escapeText s) = s.
Proof. rewrite escapeText_spec. apply unescape_escapeSpec. Qed.

End EscapeFacts.

(** ** The lines of a record *)

Section RecordFacts.

Lemma splitCRLF_step c d r :
  splitCRLF (String c (String d r))
  = if Ascii.eqb c CR && Ascii.eqb d LF then "" :: splitCRLF r
    else consHead c (splitCRLF (String d r)).
Proof. reflexivity. Qed.

Lemma splitCRLF_line (l s : string) :
  noLF l = true -> splitCRLF (l ++ CRLF ++ s) = l :: splitCRLF s.
Proof.
  induction l as [|c l IH]; intros Hl.
  - reflexivity.
  - rewrite noLF_cons in Hl. apply andb_true_iff in Hl as [Hc Hl].
    specialize (IH Hl).
    destruct l as [|d l'].
    + change (String c "" ++ CRLF ++ s)
        with (String c (String CR (String LF s))).
      cbn [splitCRLF]. change (Ascii.eqb CR LF) with false.
      rewrite andb_false_r. reflexivity.
    + rewrite noLF_cons in Hl. apply andb_true_iff in Hl as [Hd _].
      change (String c (String d l') ++ CRLF ++ s)
        with (String c (String d (l' ++ CRLF ++ s))).
      rewrite splitCRLF_step.
      change (String d (l' ++ CRLF ++ s)) with (String d l' ++ CRLF ++ s).
      unfold isLF in Hd. apply negb_true_iff in Hd. rewrite Hd, andb_false_r.
      rewrite IH. reflexivity.
Qed.

Lemma splitCRLF_last (l : string) : noLF l = true -> splitCRLF l = [l].
Proof.
  induction l as [|c l IH]; intros Hl; [reflexivity|].
  rewrite noLF_cons in Hl. apply andb_true_iff in Hl as [Hc Hl].
  specialize (IH Hl).
  destruct l as [|d l']; [reflexivity|].
  rewrite noLF_cons in Hl. apply andb_true_iff in Hl as [Hd _].
  rewrite splitCRLF_step.
  unfold isLF in Hd. apply negb_true_iff in Hd. rewrite Hd, andb_false_r.
  rewrite IH. reflexivity.
Qed.

Lemma splitCRLF_join (lines : list string) :
  lines <> [] ->
  Forall (fun l => noLF l = true) lines ->
  splitCRLF (join CRLF lines) = lines.
Proof.
  unfold join.
  induction lines as [|l rest IH]; intros Hne Hall; [congruence|].
  inversion Hall as [|? ? Hl Hrest]; subst.
  destruct rest as [|l2 rest'].
  - simpl. now apply splitCRLF_last.
  - change (String.concat CRLF (l :: l2 :: rest'))
      with (l ++ CRLF ++ String.concat CRLF (l2 :: rest')).
    rewrite splitCRLF_line by assumption.
    rewrite IH; [reflexivity | discriminate | assumption].
Qed.

Lemma join_last (sep : string) (body : list string) (x : string) :
  join sep (body ++ [x]) = terminated sep body ++ x.
Proof.
  unfold join, terminated.
  induction body as [|l body IH]; [reflexivity|].
  destruct body as [|l2 body'].
  - simpl. now rewrite ?append_assoc, ?append_nil_r.
  - change (String.concat sep ((l :: l2 :: body') ++ [x]))
      with (l ++ sep ++ String.concat sep ((l2 :: body') ++ [x])).
    rewrite IH.
    change (map (fun l0 => l0 ++ sep) (l :: l2 :: body'))
      with ((l ++ sep) :: map (fun l0 => l0 ++ sep) (l2 :: body')).
    set (m := map (fun l0 => l0 ++ sep) (l2 :: body')) in *.
    assert (Hm : String.concat "" ((l ++ sep) :: m)
                 = (l ++ sep) ++ String.concat "" m).
    { destruct m; simpl; [now rewrite append_nil_r | reflexivity]. }
    rewrite Hm, !append_assoc. reflexivity.
Qed.

(** Numerals hold no line feed. *)
Lemma noLF_string_of_uint u : noLF (NilEmpty.string_of_uint u) = true.
Proof. induction u; simpl; auto. Qed.

Lemma noLF_decimal n : noLF (decimal n) = true.
Proof.
  unfold decimal, NilZero.string_of_uint.
  destruct (N.to_uint (Z.to_N n)); try reflexivity;
    apply (noLF_string_of_uint (_ _)).
Qed.

Lemma noLF_padStart0 s n : noLF s = true -> noLF (padStart0 s n) = true.
Proof.
  intros Hs. unfold padStart0. rewrite noLF_app, Hs, andb_true_r.
  induction (n - String.length s)%nat; simpl; auto.
Qed.

Lemma noLF_padStart x n : noLF (padStart x n) = true.
Proof.
  unfold padStart. destruct (x <? 0).
  - rewrite noLF_app. simpl. apply noLF_padStart0, noLF_decimal.
  - apply noLF_padStart0, noLF_decimal.
Qed.

Lemma noLF_formatCalDav c : noLF (formatCalDav c) = true.
Proof.
  unfold formatCalDav.
  repeat (rewrite noLF_app; rewrite ?noLF_padStart; cbn [andb]).
  reflexivity.
Qed.

Lemma noLF_toCalDav zo d : noLF (toCalDav zo d) = true.
Proof.
  unfold toCalDav. destruct d as [[ts|]|]; try reflexivity.
  apply noLF_formatCalDav.
Qed.

End RecordFacts.

(** ** What [generateICal] emits *)

Section GenerateFacts.

Variable zoneOffset : Z -> Z.

Lemma icalLines_titled randomUUID now input t :
  title input = Some t ->
  icalLines zoneOffset randomUUID now input
  = Normal (recordLines zoneOffset randomUUID now input t).
Proof.
  intros Ht. unfold icalLines, recordLines, eventLines. rewrite Ht.
  cbn [escapeTextJS bindC]. f_equal.
  rewrite <- !app_assoc. reflexivity.
Qed.

Lemma icalLines_untitled randomUUID now input :
  title input = None ->
  isThrow (icalLines zoneOffset randomUUID now input) = true.
Proof. intros Ht. unfold icalLines. now rewrite Ht. Qed.

Lemma generateICal_lines randomUUID now input record :
  generateICal zoneOffset randomUUID now input = Normal record ->
  exists t,
    title input = Some t
    /\ record = join CRLF (recordLines zoneOffset randomUUID now input t).
Proof.
  unfold generateICal. destruct (title input) as [t|] eqn:Ht.
  - rewrite (icalLines_titled _ _ _ t Ht). simpl. intros [= <-]. now exists t.
  - unfold icalLines. rewrite Ht. discriminate.
Qed.

Lemma noLF_optionalLine name v :
  noLF name = true ->
  Forall (fun l => noLF l = true) (optionalLine name v).
Proof.
  intros Hn. destruct v as [[|c s]|]; simpl; constructor; [|constructor].
  now rewrite noLF_app, Hn, noLF_escapeText.
Qed.

Lemma noLF_lines randomUUID now input t :
  noLF (finalUid randomUUID input) = true ->
  Forall (fun l => noLF l = true)
    (recordLines zoneOffset randomUUID now input t).
Proof.
  intros Hu. unfold recordLines, eventLines.
  assert (Hlit : forall l, noLF l = true ->
                           Forall (fun l => noLF l = true) [l]).
  { intros l Hl. now constructor. }
  apply Forall_app. split; [apply Forall_app; split|].
  - unfold headerLines. repeat (constructor; [reflexivity|]). constructor.
  - apply Forall_app. split; [|now apply Hlit].
    apply Forall_app. split;
      [|apply Forall_app; split; now apply noLF_optionalLine].
    repeat (constructor;
            [rewrite noLF_app;
             rewrite ?Hu, ?noLF_toCalDav, ?noLF_escapeText; reflexivity|]).
    constructor.
  - now apply Hlit.
Qed.

(** The lines of the text are the lines of the array when the identifier
    brings no line feed of its own. *)
Lemma record_lines randomUUID now input record :
  noLF (finalUid randomUUID input) = true ->
  generateICal zoneOffset randomUUID now input = Normal record ->
  exists t,
    title input = Some t
    /\ splitCRLF record = recordLines zoneOffset randomUUID now input t.
Proof.
  intros Hu Hg. destruct (generateICal_lines _ _ _ _ Hg) as (t & Ht & ->).
  exists t. split; [assumption|].
  apply splitCRLF_join; [|now apply noLF_lines].
  intros H. apply (f_equal (@List.length string)) in H.
  unfold recordLines in H. rewrite length_app in H.
  cbn [List.length] in H. lia.
Qed.

Lemma startsWith_self name s : startsWith name (name ++ s) = true.
Proof.
  induction name as [|c n IH]; simpl; [reflexivity|].
  now rewrite Ascii.eqb_refl, IH.
Qed.

Lemma existsb_optional name v :
  existsb (startsWith name) (optionalLine name v) = truthy v.
Proof.
  destruct v as [[|c s]|]; try reflexivity.
  cbn [optionalLine existsb truthy]. now rewrite startsWith_self.
Qed.

Lemma no_description_in_location v :
  existsb (startsWith "DESCRIPTION:") (optionalLine "LOCATION:" v) = false.
Proof. destruct v as [[|c s]|]; reflexivity. Qed.

Lemma no_location_in_description v :
  existsb (startsWith "LOCATION:") (optionalLine "DESCRIPTION:" v) = false.
Proof. destruct v as [[|c s]|]; reflexivity. Qed.

Lemma no_description_in_fixed (a b c d e : string) :
  existsb (startsWith "DESCRIPTION:")
    [ "UID:" ++ a; "DTSTAMP:" ++ b;
      "DTSTART;TZID=Europe/Helsinki:" ++ c;
      "DTEND;TZID=Europe/Helsinki:" ++ d; "SUMMARY:" ++ e ] = false.
Proof. reflexivity. Qed.

Lemma no_location_in_fixed (a b c d e : string) :
  existsb (startsWith "LOCATION:")
    [ "UID:" ++ a; "DTSTAMP:" ++ b;
      "DTSTART;TZID=Europe/Helsinki:" ++ c;
      "DTEND;TZID=Europe/Helsinki:" ++ d; "SUMMARY:" ++ e ] = false.
Proof. reflexivity. Qed.

End GenerateFacts.

(** C2.  For every free text [s], [escapeText] puts a backslash before each
    backslash, comma and semicolon and writes each line feed as backslash-n
    ([escapeSpec], character by character), so that its result is in
    escaped form; and [generateICal] applies it to the title, the
    description and the location separately, each on a line of its own. *)
Theorem escapeText_obeys_rule (zoneOffset : Z -> Z) (randomUUID : string)
  (now : Z) (input : ICalInput) (t : string) :
  title input = Some t ->
  (forall s, escapeText s = escapeSpec s
             /\ wellEscaped (escapeText s) = true)
  /\ exists lines,
       icalLines zoneOffset randomUUID now input = Normal lines
       /\ generateICal zoneOffset randomUUID now input
          = Normal (join CRLF lines)
       /\ In ("SUMMARY:" ++ escapeSpec t) lines
       /\ (forall d, description input = Some d -> d <> "" ->
                     In ("DESCRIPTION:" ++ escapeSpec d) lines)
       /\ (forall l, location input = Some l -> l <> "" ->
                     In ("LOCATION:" ++ escapeSpec l) lines).
Proof.
  intros Ht. split.
  - intros s. split; [apply escapeText_spec|].
    rewrite escapeText_spec. apply wellEscaped_escapeSpec.
  - eexists. split; [apply (icalLines_titled _ _ _ _ t Ht)|].
    split; [unfold generateICal; now rewrite (icalLines_titled _ _ _ _ t Ht)|].
    unfold recordLines, eventLines. rewrite <- !escapeText_spec.
    split; [|split].
    + rewrite !in_app_iff. left. right. left. left. cbn [In]. tauto.
    + intros d Hd Hne. rewrite Hd.
      destruct d as [|c d']; [congruence|].
      rewrite !in_app_iff. left. right. left. right. left.
      rewrite <- escapeText_spec. now left.
    + intros l Hl Hne. rewrite Hl.
      destruct l as [|c l']; [congruence|].
      rewrite !in_app_iff. left. right. left. right. right.
      rewrite <- escapeText_spec. now left.
Qed.

Lemma escapeText_obeys_rule_witness :
  title Samples.teamSync = Some "Team Sync; Q3"
  /\ exists lines,
       icalLines helsinkiOffset "id" 0 Samples.teamSync = Normal lines
       /\ In "SUMMARY:Team Sync\; Q3" lines
       /\ In "DESCRIPTION:a\nb" lines
       /\ In "LOCATION:Room 1\, floor 2" lines.
Proof.
  split; [reflexivity|].
  destruct (escapeText_obeys_rule helsinkiOffset "id" 0 Samples.teamSync
              "Team Sync; Q3" eq_refl)
    as (_ & lines & Hl & _ & Hs & Hd & Hloc).
  exists lines. split; [exact Hl|]. split; [exact Hs|]. split.
  - apply (Hd (String "a" (String LF "b")) eq_refl). discriminate.
  - apply (Hloc "Room 1, floor 2" eq_refl). discriminate.
Defined.

(** C3, as the code has it.  [generateICal] checks nothing itself.  It
    raises exactly when the title is missing (the call of [replace] on
    [undefined]); an event with a title and no start is not refused: the
    record comes out with the text of an invalid [DateTime] where the start
    belongs. *)
Theorem generateICal_raises_iff_untitled (zoneOffset : Z -> Z)
  (randomUUID : string) (now : Z) (input : ICalInput) :
  (isThrow (generateICal zoneOffset randomUUID now input) = true
   <-> title input = None)
  /\ (forall t, title input = Some t -> start input = None ->
      exists lines,
        generateICal zoneOffset randomUUID now input
        = Normal (join CRLF lines)
        /\ In "DTSTART;TZID=Europe/Helsinki:Invalid DateTime" lines).
Proof.
  split.
  - unfold generateICal, icalLines.
    destruct (title input) as [t|]; simpl; split; congruence.
  - intros t Ht Hs. eexists. split.
    + unfold generateICal. rewrite (icalLines_titled _ _ _ _ t Ht).
      reflexivity.
    + unfold recordLines, eventLines. rewrite Hs. rewrite !in_app_iff.
      left. right. left. left. cbn [In toCalDav INVALID]. tauto.
Qed.

Lemma generateICal_raises_iff_untitled_witness :
  exists lines,
    generateICal helsinkiOffset "id" 0 Samples.noStart
    = Normal (join CRLF lines)
    /\ In "DTSTART;TZID=Europe/Helsinki:Invalid DateTime" lines.
Proof.
  exact (proj2 (generateICal_raises_iff_untitled helsinkiOffset "id" 0
                  Samples.noStart) "Lunch" eq_refl eq_refl).
Defined.

(** C3, as the claim has it, fails: an event with a title and no start is
    turned into a record. *)
Lemma generateICal_accepts_missing_start :
  start Samples.noStart = None
  /\ exists record,
       generateICal helsinkiOffset "id" 0 Samples.noStart = Normal record
       /\ hasLine "DTSTART;TZID=Europe/Helsinki:Invalid DateTime" record
          = true.
Proof.
  split; [reflexivity|]. eexists. split; [reflexivity|]. vm_compute.
  reflexivity.
Qed.

(** C8, as the code has it.  The record has a DESCRIPTION line exactly when
    the description is a non-empty string, and a LOCATION line exactly when
    the location is one (the identifier being free of line feeds, so that
    it adds no line). *)
Theorem optional_lines_iff_nonempty (zoneOffset : Z -> Z)
  (randomUUID : string) (now : Z) (input : ICalInput) (record : string) :
  noLF (finalUid randomUUID input) = true ->
  generateICal zoneOffset randomUUID now input = Normal record ->
  hasLine "DESCRIPTION:" record = truthy (description input)
  /\ hasLine "LOCATION:" record = truthy (location input).
Proof.
  intros Hu Hg.
  destruct (record_lines _ _ _ _ _ Hu Hg) as (t & Ht & Hs).
  unfold hasLine. rewrite Hs. unfold recordLines, eventLines. cbv zeta.
  rewrite !existsb_app, !existsb_optional.
  rewrite no_description_in_location, no_location_in_description.
  rewrite no_description_in_fixed, no_location_in_fixed.
  change (existsb (startsWith "DESCRIPTION:") headerLines) with false.
  change (existsb (startsWith "LOCATION:") headerLines) with false.
  cbn [existsb startsWith Ascii.eqb Bool.eqb andb orb].
  split; destruct (truthy _); reflexivity.
Qed.

Lemma optional_lines_iff_nonempty_witness :
  exists record,
    generateICal helsinkiOffset "id" 0 Samples.teamSync = Normal record
    /\ hasLine "DESCRIPTION:" record = true
    /\ hasLine "LOCATION:" record = true.
Proof.
  eexists. split; [reflexivity|].
  exact (optional_lines_iff_nonempty helsinkiOffset "id" 0 Samples.teamSync
           _ eq_refl eq_refl).
Defined.

(** C8, as the claim has it, fails: a description and a location that are
    present and empty leave no line. *)
Lemma empty_description_leaves_no_line :
  description Samples.emptyDescription = Some ""
  /\ location Samples.emptyDescription = Some ""
  /\ exists record,
       generateICal helsinkiOffset "id" 0 Samples.emptyDescription
       = Normal record
       /\ hasLine "DESCRIPTION:" record = false
       /\ hasLine "LOCATION:" record = false.
Proof.
  split; [reflexivity|]. split; [reflexivity|].
  eexists. split; [reflexivity|]. split; vm_compute; reflexivity.
Qed.

(** C10, as the code has it.  The record is its lines joined by CRLF: each
    line of the array but the last is followed by a CRLF pair, and the last
    one closes the text. *)
Theorem record_is_lines_joined_by_CRLF (zoneOffset : Z -> Z)
  (randomUUID : string) (now : Z) (input : ICalInput) (record : string) :
  generateICal zoneOffset randomUUID now input = Normal record ->
  exists body,
    icalLines zoneOffset randomUUID now input
    = Normal (body ++ ["END:VCALENDAR"])%list
    /\ record = terminated CRLF body ++ "END:VCALENDAR".
Proof.
  intros Hg. destruct (generateICal_lines _ _ _ _ _ Hg) as (t & Ht & ->).
  eexists. split; [apply (icalLines_titled _ _ _ _ t Ht)|].
  unfold recordLines. now rewrite join_last.
Qed.

Lemma record_is_lines_joined_by_CRLF_witness :
  exists record body,
    generateICal helsinkiOffset "id" 0 Samples.teamSync = Normal record
    /\ record = terminated CRLF body ++ "END:VCALENDAR".
Proof.
  eexists.
  destruct (record_is_lines_joined_by_CRLF helsinkiOffset "id" 0
              Samples.teamSync _ eq_refl) as (body & _ & Hr).
  exists body. split; [reflexivity | exact Hr].
Defined.

(** C10, as the claim has it, fails: the last line of a record has no
    CRLF after it. *)
Lemma last_line_not_terminated :
  exists record,
    generateICal helsinkiOffset "id" 0 Samples.teamSync = Normal record
    /\ endsWith "END:VCALENDAR" record = true
    /\ endsWith CRLF record = false.
Proof.
  eexists. split; [reflexivity|]. split; vm_compute; reflexivity.
Qed.

(** ** Time values *)

Section DateFacts.

Lemma DayFromYear_succ y : DayFromYear (y + 1) = DayFromYear y + DaysInYear y.
Proof.
  unfold DayFromYear, DaysInYear.
  destruct (Z.eqb_spec (y mod 4) 0), (Z.eqb_spec (y mod 100) 0),
    (Z.eqb_spec (y mod 400) 0); cbn [negb];
    Z.div_mod_to_equations; lia.
Qed.

(** [YearFromDay d] is the year of day [d]: the largest year that begins
    on or before it. *)
Lemma YearFromDay_spec d :
  DayFromYear (YearFromDay d) <= d < DayFromYear (YearFromDay d + 1).
Proof.
  unfold YearFromDay.
  set (y := 1970 + 400 * d / 146097).
  assert (Hy : 146097 * (y - 1970) <= 400 * d < 146097 * (y - 1969)).
  { subst y. Z.div_mod_to_equations. lia. }
  clearbody y.
  destruct (Z.leb_spec (DayFromYear (y + 1)) d).
  - split; [lia|]. replace (y + 1 + 1) with (y + 2) by lia.
    unfold DayFromYear in *. Z.div_mod_to_equations. lia.
  - destruct (Z.ltb_spec d (DayFromYear y)).
    + replace (y - 1 + 1) with y by lia. split; [|lia].
      unfold DayFromYear in *. Z.div_mod_to_equations. lia.
    + lia.
Qed.

Lemma DaysInYear_leap y :
  DaysInYear y = 365 + (if DaysInYear y =? 366 then 1 else 0).
Proof.
  unfold DaysInYear.
  destruct (negb (y mod 4 =? 0)); [reflexivity|].
  destruct (negb (y mod 100 =? 0)); [reflexivity|].
  destruct (negb (y mod 400 =? 0)); reflexivity.
Qed.

Lemma InLeapYear_bit t : InLeapYear t = 0 \/ InLeapYear t = 1.
Proof. unfold InLeapYear. destruct (_ =? 366); auto. Qed.

Lemma DayWithinYear_range t :
  0 <= DayWithinYear t < 365 + InLeapYear t.
Proof.
  unfold DayWithinYear, InLeapYear, YearFromTime.
  pose proof (YearFromDay_spec (Day t)) as H.
  rewrite DayFromYear_succ in H.
  rewrite <- DaysInYear_leap. lia.
Qed.

Lemma MonthFromTime_range t : 0 <= MonthFromTime t <= 11.
Proof.
  unfold MonthFromTime.
  repeat (match goal with
          | |- context [if ?b then _ else _] => destruct b
          end; [lia|]).
  lia.
Qed.

Lemma DateFromTime_range t : 1 <= DateFromTime t <= 31.
Proof.
  unfold DateFromTime, MonthFromTime.
  pose proof (DayWithinYear_range t) as Hd.
  pose proof (InLeapYear_bit t) as Hl.
  repeat (match goal with
          | |- context [Z.ltb ?a ?b] => destruct (Z.ltb_spec a b)
          end; [cbn [daysBeforeMonth]; lia|]).
  cbn [daysBeforeMonth]. lia.
Qed.

Lemma MakeDay_fields t :
  MakeDay (YearFromTime t) (MonthFromTime t) (DateFromTime t) = Day t.
Proof. unfold MakeDay, DateFromTime, DayWithinYear, InLeapYear. lia. Qed.

Lemma MakeTime_fields t :
  MakeTime (HourFromTime t) (MinFromTime t) (SecFromTime t) 0
  = TimeWithinDay t - t mod 1000.
Proof.
  unfold MakeTime, HourFromTime, MinFromTime, SecFromTime, TimeWithinDay,
    msPerHour, msPerMinute, msPerSecond, msPerDay.
  Z.div_mod_to_equations. lia.
Qed.

Lemma time_fields_range t :
  0 <= HourFromTime t <= 23 /\ 0 <= MinFromTime t <= 59
  /\ 0 <= SecFromTime t <= 59.
Proof.
  unfold HourFromTime, MinFromTime, SecFromTime.
  repeat split; Z.div_mod_to_equations; lia.
Qed.

(** The civil fields of an instant give back its whole second. *)
Lemma objToLocalTS_tsToObj ts offset :
  objToLocalTS (tsToObj ts offset)
  = (ts + offset * 60 * 1000) - (ts + offset * 60 * 1000) mod 1000.
Proof.
  unfold objToLocalTS, tsToObj. cbn [year month day hour minute second].
  set (t := ts + offset * 60 * 1000).
  replace (MonthFromTime t + 1 - 1) with (MonthFromTime t) by lia.
  rewrite MakeDay_fields, MakeTime_fields.
  unfold MakeDate, Day, TimeWithinDay, msPerDay.
  Z.div_mod_to_equations. lia.
Qed.

Lemma tsToObj_inRange ts offset :
  0 <= YearFromTime (ts + offset * 60 * 1000) <= 9999 ->
  inRange (tsToObj ts offset).
Proof.
  intros Hy. unfold inRange, tsToObj.
  cbn [year month day hour minute second].
  set (t := ts + offset * 60 * 1000) in *.
  pose proof (MonthFromTime_range t).
  pose proof (DateFromTime_range t).
  pose proof (time_fields_range t) as (? & ? & ?).
  repeat split; lia.
Qed.

End DateFacts.

(** ** Writing and reading a local time *)

Section TimeTextFacts.

Lemma checkBelow_sound P k :
  checkBelow P k = true -> forall n, 0 <= n < k -> P n = true.
Proof.
  unfold checkBelow. rewrite forallb_forall. intros H n Hn.
  apply H. rewrite in_map_iff. exists (Z.to_nat n).
  split; [lia|]. apply in_seq. lia.
Qed.

Lemma padStart_two n : 0 <= n < 100 -> padStart n 2 = twoDigits n.
Proof.
  intros Hn. apply String.eqb_eq.
  apply (checkBelow_sound
           (fun n => String.eqb (padStart n 2) (twoDigits n)) 100);
    [vm_compute; reflexivity | lia].
Qed.

Lemma padStart_four n : 0 <= n < 10000 -> padStart n 4 = fourDigits n.
Proof.
  intros Hn. apply String.eqb_eq.
  apply (checkBelow_sound
           (fun n => String.eqb (padStart n 4) (fourDigits n)) 10000);
    [vm_compute; reflexivity | lia].
Qed.

Lemma digitValue_digitChar k :
  0 <= k <= 9 -> digitValue (digitChar k) = Some k.
Proof.
  intros Hk.
  pose (P := fun k => match digitValue (digitChar k) with
                      | Some v => v =? k
                      | None => false
                      end).
  assert (H : P k = true)
    by (apply (checkBelow_sound P 10); [vm_compute; reflexivity | lia]).
  unfold P in H. destruct (digitValue (digitChar k)); [|discriminate].
  apply Z.eqb_eq in H. now subst.
Qed.

Lemma digitsValue_two n :
  0 <= n < 100 -> digitsValue 0 (twoDigits n) = Some n.
Proof.
  intros Hn. unfold twoDigits. cbn [digitsValue].
  rewrite !digitValue_digitChar by (Z.div_mod_to_equations; lia).
  f_equal. Z.div_mod_to_equations. lia.
Qed.

Lemma digitsValue_four n :
  0 <= n < 10000 -> digitsValue 0 (fourDigits n) = Some n.
Proof.
  intros Hn. unfold fourDigits. cbn [digitsValue].
  rewrite !digitValue_digitChar by (Z.div_mod_to_equations; lia).
  f_equal. Z.div_mod_to_equations. lia.
Qed.

Lemma formatCalDav_inRange c :
  inRange c ->
  formatCalDav c
  = fourDigits (year c) ++ twoDigits (month c) ++ twoDigits (day c) ++ "T"
    ++ twoDigits (hour c) ++ twoDigits (minute c) ++ twoDigits (second c).
Proof.
  intros (Hy & Hmo & Hd & Hh & Hmi & Hs). unfold formatCalDav.
  rewrite padStart_four by lia. rewrite !padStart_two by lia. reflexivity.
Qed.

(** A written local time reads back as the fields that were written. *)
Lemma calDavFields_formatCalDav c :
  inRange c -> calDavFields (formatCalDav c) = Some c.
Proof.
  intros Hc. rewrite (formatCalDav_inRange c Hc).
  destruct Hc as (Hy & Hmo & Hd & Hh & Hmi & Hs).
  unfold calDavFields.
  change (String.length _) with 15%nat.
  change (isChar "T" (charAt 8 _)) with true.
  cbn [Nat.eqb andb].
  change (field 0 4 _) with (digitsValue 0 (fourDigits (year c))).
  change (field 4 2 _) with (digitsValue 0 (twoDigits (month c))).
  change (field 6 2 _) with (digitsValue 0 (twoDigits (day c))).
  change (field 9 2 _) with (digitsValue 0 (twoDigits (hour c))).
  change (field 11 2 _) with (digitsValue 0 (twoDigits (minute c))).
  change (field 13 2 _) with (digitsValue 0 (twoDigits (second c))).
  rewrite digitsValue_four by lia. rewrite !digitsValue_two by lia.
  destruct c; reflexivity.
Qed.

Variable zoneOffset : Z -> Z.

Lemma resolveLocal_local ts :
  zoneOffset ts = daylightOffset
  \/ (zoneOffset ts = standardOffset
      /\ zoneOffset (ts - 60 * 60 * 1000) <> daylightOffset) ->
  resolveLocal zoneOffset (ts + zoneOffset ts * 60 * 1000) = ts.
Proof.
  unfold resolveLocal, daylightOffset, standardOffset.
  intros [H | [H Hn]]; rewrite H.
  - replace (ts + 180 * 60 * 1000 - 180 * 60 * 1000) with ts by lia.
    rewrite H, Z.eqb_refl. reflexivity.
  - replace (ts + 120 * 60 * 1000 - 180 * 60 * 1000)
      with (ts - 60 * 60 * 1000) by lia.
    destruct (Z.eqb_spec (zoneOffset (ts - 60 * 60 * 1000)) 180);
      [contradiction | lia].
Qed.

(** A readable instant is read back from what [toCalDav] writes for it. *)
Lemma readTime_toCalDav ts :
  readable zoneOffset ts ->
  readTime zoneOffset (toCalDav zoneOffset (Some (TimeValue ts))) = Some ts.
Proof.
  intros (Hms & Hy & Hz). unfold readTime, toCalDav.
  rewrite calDavFields_formatCalDav by now apply tsToObj_inRange.
  rewrite objToLocalTS_tsToObj.
  replace ((ts + zoneOffset ts * 60 * 1000) mod 1000) with 0
    by (Z.div_mod_to_equations; lia).
  rewrite Z.sub_0_r, resolveLocal_local by assumption. reflexivity.
Qed.

End TimeTextFacts.

(** ** Reading a record back *)

Section ReadBack.

Variable zoneOffset : Z -> Z.

Lemma read_header :
  fold_left (IcsToJson.parseLine zoneOffset) headerLines (None, [])
  = (Some IcsToJson.emptyEvent, []).
Proof. reflexivity. Qed.

Lemma read_uid ev done u :
  IcsToJson.parseLine zoneOffset (Some ev, done) ("UID:" ++ u)
  = (Some ev, done).
Proof. reflexivity. Qed.

Lemma read_stamp ev done v :
  IcsToJson.parseLine zoneOffset (Some ev, done) ("DTSTAMP:" ++ v)
  = (Some ev, done).
Proof. reflexivity. Qed.

Lemma read_start ev done v :
  IcsToJson.parseLine zoneOffset (Some ev, done)
    ("DTSTART;TZID=Europe/Helsinki:" ++ v)
  = (Some (IcsToJson.mkEventJson
             (IcsToJson.summary ev) (readTime zoneOffset v)
             (IcsToJson.endDate ev) (IcsToJson.description ev)
             (IcsToJson.location ev)), done).
Proof. reflexivity. Qed.

Lemma read_end ev done v :
  IcsToJson.parseLine zoneOffset (Some ev, done)
    ("DTEND;TZID=Europe/Helsinki:" ++ v)
  = (Some (IcsToJson.mkEventJson
             (IcsToJson.summary ev) (IcsToJson.startDate ev)
             (readTime zoneOffset v) (IcsToJson.description ev)
             (IcsToJson.location ev)), done).
Proof. reflexivity. Qed.

Lemma read_summary ev done v :
  IcsToJson.parseLine zoneOffset (Some ev, done) ("SUMMARY:" ++ v)
  = (Some (IcsToJson.mkEventJson
             (Some (IcsToJson.unescapeText v)) (IcsToJson.startDate ev)
             (IcsToJson.endDate ev) (IcsToJson.description ev)
             (IcsToJson.location ev)), done).
Proof. reflexivity. Qed.

Lemma read_description ev done v :
  IcsToJson.parseLine zoneOffset (Some ev, done) ("DESCRIPTION:" ++ v)
  = (Some (IcsToJson.mkEventJson
             (IcsToJson.summary ev) (IcsToJson.startDate ev)
             (IcsToJson.endDate ev) (Some (IcsToJson.unescapeText v))
             (IcsToJson.location ev)), done).
Proof. reflexivity. Qed.

Lemma read_location ev done v :
  IcsToJson.parseLine zoneOffset (Some ev, done) ("LOCATION:" ++ v)
  = (Some (IcsToJson.mkEventJson
             (IcsToJson.summary ev) (IcsToJson.startDate ev)
             (IcsToJson.endDate ev) (IcsToJson.description ev)
             (Some (IcsToJson.unescapeText v))), done).
Proof. reflexivity. Qed.

Lemma read_optional_description ev done v :
  v <> Some "" ->
  fold_left (IcsToJson.parseLine zoneOffset)
    (optionalLine "DESCRIPTION:" v) (Some ev, done)
  = (Some (IcsToJson.mkEventJson
             (IcsToJson.summary ev) (IcsToJson.startDate ev)
             (IcsToJson.endDate ev)
             (match v with Some _ => v | None => IcsToJson.description ev end)
             (IcsToJson.location ev)), done).
Proof.
  intros Hv. destruct v as [[|c s]|]; [congruence| |now destruct ev].
  cbn [optionalLine fold_left].
  now rewrite read_description, unescape_escapeText.
Qed.

Lemma read_optional_location ev done v :
  v <> Some "" ->
  fold_left (IcsToJson.parseLine zoneOffset)
    (optionalLine "LOCATION:" v) (Some ev, done)
  = (Some (IcsToJson.mkEventJson
             (IcsToJson.summary ev) (IcsToJson.startDate ev)
             (IcsToJson.endDate ev) (IcsToJson.description ev)
             (match v with Some _ => v | None => IcsToJson.location ev end)),
     done).
Proof.
  intros Hv. destruct v as [[|c s]|]; [congruence| |now destruct ev].
  cbn [optionalLine fold_left].
  now rewrite read_location, unescape_escapeText.
Qed.

(** What the reader makes of the lines of a record. *)
Lemma read_recordLines randomUUID now input t :
  description input <> Some "" ->
  location input <> Some "" ->
  snd (fold_left (IcsToJson.parseLine zoneOffset)
         (recordLines zoneOffset randomUUID now input t) (None, []))
  = [ IcsToJson.mkEventJson (Some t)
        (readTime zoneOffset (toCalDav zoneOffset (start input)))
        (readTime zoneOffset (toCalDav zoneOffset (end_ input)))
        (description input) (location input) ].
Proof.
  intros Hd Hl. unfold recordLines, eventLines. cbv zeta.
  rewrite !fold_left_app, read_header.
  cbn [fold_left].
  rewrite read_uid, read_stamp, read_start, read_end, read_summary.
  rewrite read_optional_description, read_optional_location by assumption.
  rewrite unescape_escapeText.
  cbn [IcsToJson.summary IcsToJson.startDate IcsToJson.endDate
       IcsToJson.description IcsToJson.location IcsToJson.emptyEvent].
  destruct (description input), (location input); reflexivity.
Qed.

End ReadBack.




(** ** The default end of [createEvent] *)




(** ** What a session does to the history *)

Section EffectFacts.

Local Open Scope nat_scope.
Local Open Scope list_scope.

Lemma count_app p (a b : list Event) :
  count p (a ++ b) = count p a + count p b.
Proof. unfold count. now rewrite filter_app, length_app. Qed.

Lemma effects_ret {A} n (a : A) : effects n (ret a).
Proof.
  intros h. exists []. cbn. rewrite app_nil_r.
  repeat split; [constructor | unfold count; cbn; lia].
Qed.

Lemma effects_throw {A} n e : effects n (@throw A e).
Proof.
  intros h. exists []. cbn. rewrite app_nil_r.
  repeat split; [constructor | unfold count; cbn; lia].
Qed.

Lemma effects_weaken {A} n n' (m : IO A) :
  n <= n' -> effects n m -> effects n' m.
Proof.
  intros Hn Hm h. destruct (Hm h) as (mid & E & F & C).
  exists mid. repeat split; [assumption | assumption | lia].
Qed.

Lemma effects_bind {A B} n1 n2 (m : IO A) (k : A -> IO B) :
  effects n1 m -> (forall a, effects n2 (k a)) ->
  effects (n1 + n2) (bind m k).
Proof.
  intros Hm Hk h. destruct (Hm h) as (mid1 & E1 & F1 & C1).
  unfold bind. destruct (m h) as [h1 [a|e]]; cbn [fst] in E1; subst h1.
  - destruct (Hk a (h ++ mid1)) as (mid2 & E2 & F2 & C2).
    exists (mid1 ++ mid2). rewrite E2, app_assoc.
    repeat split; [now apply Forall_app | rewrite count_app; lia].
  - exists mid1. repeat split; [assumption | lia].
Qed.

Lemma effects_await {A} (e : Event) (f : list Event -> Completion A) :
  isClose e = false ->
  effects (if isChat e then 1 else 0) (await e f).
Proof.
  intros He h. exists [e]. cbn [await fst].
  repeat split; [now constructor|].
  unfold count. cbn [filter]. destruct (isChat e); cbn; lia.
Qed.

Variable JSON_parse : string -> option JSON.
Variable systemPrompt : string -> string.
Variable w : World.

Lemma effects_parseArgs arguments : effects 0 (parseArgs JSON_parse arguments).
Proof.
  unfold parseArgs. destruct (JSON_parse arguments).
  - apply effects_ret.
  - intros h. exists [ConsoleError]. cbn [fst].
    repeat split; [now constructor | unfold count; cbn; lia].
Qed.

Lemma effects_execToolCall st toolCall :
  effects 0 (execToolCall JSON_parse w st toolCall).
Proof.
  unfold execToolCall.
  apply (effects_bind 0 0); [apply effects_parseArgs|]. intros args.
  apply (effects_bind 0 0);
    [apply (effects_await (CallTool _ _)); reflexivity|].
  intros result. apply effects_ret.
Qed.

Lemma effects_forEachToolCall calls :
  forall st, effects 0 (forEachToolCall JSON_parse w calls st).
Proof.
  induction calls as [|toolCall rest IH]; intros st; cbn [forEachToolCall].
  - apply effects_ret.
  - apply (effects_bind 0 0); [apply effects_execToolCall | exact IH].
Qed.

Lemma effects_oneRound openaiTools st :
  effects 1 (oneRound JSON_parse w openaiTools st).
Proof.
  unfold oneRound.
  apply (effects_bind 1 0);
    [apply (effects_await (ChatRequest _)); reflexivity|].
  intros data.
  apply (effects_bind 0 0).
  - unfold firstChoice. destruct (choices data);
      [apply effects_throw | apply effects_ret].
  - intros message. destruct (tool_calls message) as [[|toolCall rest]|];
      try apply effects_ret.
    apply (effects_bind 0 0); [apply effects_forEachToolCall|].
    intros st2. apply effects_ret.
Qed.

Lemma effects_whileRounds openaiTools remaining :
  forall st,
    effects remaining (whileRounds JSON_parse w openaiTools remaining st).
Proof.
  induction remaining as [|remaining IH]; intros st; cbn [whileRounds].
  - apply effects_ret.
  - apply (effects_bind 1 remaining); [apply effects_oneRound|].
    intros [st' go]. cbn [fst snd]. destruct go; [apply IH|].
    apply effects_ret.
Qed.

Lemma effects_session prompt :
  effects maxRounds (session JSON_parse systemPrompt w prompt).
Proof.
  unfold session.
  apply (effects_bind 0 maxRounds);
    [apply (effects_await Connect); reflexivity|]. intros _.
  apply (effects_bind 0 maxRounds);
    [apply (effects_await ListTools); reflexivity|]. intros toolList.
  apply effects_whileRounds.
Qed.

Lemma effects_finalAnswer st : effects 0 (finalAnswer st).
Proof.
  unfold finalAnswer. destruct (lastMessage (st_messages st));
    [apply effects_ret | apply effects_throw].
Qed.

(** The history of a whole run: what the [try] block did, then the
    closing of the transport. *)
Lemma callMcpClient_history prompt h :
  exists mid,
    fst (callMcpClient JSON_parse systemPrompt w prompt h)
    = h ++ mid ++ [Close]
    /\ Forall (fun e => isClose e = false) mid
    /\ count isChat mid <= maxRounds.
Proof.
  assert (Hbody : effects (maxRounds + 0)
                    (bind (session JSON_parse systemPrompt w prompt)
                          finalAnswer)).
  { apply effects_bind; [apply effects_session|].
    intros st. apply effects_finalAnswer. }
  destruct (Hbody h) as (mid & E & F & C).
  exists mid. unfold callMcpClient, tryFinally.
  destruct (bind _ _ h) as [h1 r]. cbn [fst] in E. subst h1.
  unfold await. destruct (close w (h ++ mid)); cbn [fst];
    rewrite <- app_assoc; repeat split; try assumption; lia.
Qed.

End EffectFacts.

(** C7.  On every path out of [callMcpClient], whatever the collaborators
    do and whether it returns or throws, the last thing the session does is
    to close the transport, and it does so once. *)
Theorem transport_closed_on_every_path
  (JSON_parse : string -> option JSON) (systemPrompt : string -> string)
  (w : World) (prompt : string) (h : list Event) :
  exists mid,
    fst (callMcpClient JSON_parse systemPrompt w prompt h)
    = (h ++ mid ++ [Close])%list
    /\ Forall (fun e => isClose e = false) mid.
Proof.
  destruct (callMcpClient_history JSON_parse systemPrompt w prompt h)
    as (mid & E & F & _).
  now exists mid.
Qed.

(** ** Rounds *)

Section RoundFacts.

Local Open Scope nat_scope.
Local Open Scope list_scope.

Variable JSON_parse : string -> option JSON.
Variable systemPrompt : string -> string.
Variable w : World.

(** One invocation, whatever its payload and whatever the tool does. *)
Lemma execToolCall_eq st toolCall h :
  execToolCall JSON_parse w st toolCall h
  = (h ++ eventsOf JSON_parse toolCall,
     match callTool w (h ++ logOf JSON_parse toolCall) (tc_name toolCall)
             (argsOrEmpty JSON_parse (tc_arguments toolCall)) with
     | Normal result => Normal (afterCall st toolCall result)
     | Throw e => Throw e
     end).
Proof.
  unfold execToolCall, parseArgs, eventsOf, logOf, callEvent, argsOrEmpty,
    bind, await, ret.
  destruct (JSON_parse (tc_arguments toolCall)) as [args|].
  - rewrite app_nil_r. cbn [app]. destruct (callTool w h _ _); reflexivity.
  - rewrite <- app_assoc. cbn [app].
    destruct (callTool w (h ++ [ConsoleError]) _ _); reflexivity.
Qed.

Lemma forEachToolCall_cons toolCall rest st h :
  forEachToolCall JSON_parse w (toolCall :: rest) st h
  = match callTool w (h ++ logOf JSON_parse toolCall) (tc_name toolCall)
            (argsOrEmpty JSON_parse (tc_arguments toolCall)) with
    | Normal result =>
        forEachToolCall JSON_parse w rest (afterCall st toolCall result)
          (h ++ eventsOf JSON_parse toolCall)
    | Throw e => (h ++ eventsOf JSON_parse toolCall, Throw e)
    end.
Proof.
  cbn [forEachToolCall]. unfold bind at 1. rewrite execToolCall_eq.
  destruct (callTool w _ _ _); reflexivity.
Qed.

(** The invocations are executed in the order received: the history grows
    by the events of a prefix of them, the whole of them unless a tool
    fails. *)
Lemma forEachToolCall_history calls :
  forall st h, exists k,
    k <= List.length calls
    /\ fst (forEachToolCall JSON_parse w calls st h)
       = h ++ flat_map (eventsOf JSON_parse) (firstn k calls)
    /\ (isThrow (snd (forEachToolCall JSON_parse w calls st h)) = false ->
        k = List.length calls).
Proof.
  induction calls as [|toolCall rest IH]; intros st h.
  - exists 0. cbn. rewrite app_nil_r. repeat split; lia.
  - rewrite forEachToolCall_cons.
    destruct (callTool w _ _ _) as [result|e].
    + destruct (IH (afterCall st toolCall result)
                   (h ++ eventsOf JSON_parse toolCall)) as (k & Hk & E & N).
      exists (S k). cbn [List.length firstn flat_map].
      rewrite E, <- app_assoc. repeat split; [lia|].
      intros H. now rewrite (N H).
    + exists 1. cbn [List.length firstn flat_map fst snd isThrow].
      rewrite app_nil_r. repeat split; [lia | discriminate].
Qed.

(** A [for] loop that completes has appended one tool message for each
    invocation, in their order. *)
Lemma forEachToolCall_normal calls :
  forall st h h' st',
    forEachToolCall JSON_parse w calls st h = (h', Normal st') ->
    h' = h ++ flat_map (eventsOf JSON_parse) calls
    /\ exists texts,
         List.length texts = List.length calls
         /\ st' = mkLoopState
                    (st_messages st ++ toolMessages calls texts)
                    (st_toolCalls st ++ map tc_name calls)
                    (st_round st).
Proof.
  induction calls as [|toolCall rest IH]; intros st h h' st' H.
  - cbn in H. injection H as <- <-. rewrite !app_nil_r.
    split; [reflexivity|]. exists []. split; [reflexivity|].
    unfold toolMessages. cbn. rewrite !app_nil_r. now destruct st.
  - rewrite forEachToolCall_cons in H.
    destruct (callTool w _ _ _) as [result|e]; [|discriminate].
    apply IH in H as (-> & texts & Hlen & ->).
    split; [cbn [flat_map]; now rewrite <- app_assoc|].
    exists (join (String LF "") (map textOf (result_content result))
            :: texts).
    split; [cbn; now rewrite Hlen|].
    unfold afterCall, toolMessages. cbn [st_messages st_toolCalls st_round
      combine map fst snd].
    now rewrite <- !app_assoc.
Qed.

Lemma forEachToolCall_ok calls :
  toolsNeverFail w ->
  forall st h, exists h' st',
    forEachToolCall JSON_parse w calls st h = (h', Normal st').
Proof.
  intros Hw. induction calls as [|toolCall rest IH]; intros st h.
  - now exists h, st.
  - rewrite forEachToolCall_cons.
    destruct (Hw (h ++ logOf JSON_parse toolCall) (tc_name toolCall)
                (argsOrEmpty JSON_parse (tc_arguments toolCall)))
      as [result ->].
    apply IH.
Qed.

(** One round, unfolded on the answer of the chat endpoint. *)
Lemma oneRound_eq openaiTools st h m rest :
  fetchData w h (requestBody w openaiTools st)
  = Normal (mkResponse (m :: rest)) ->
  oneRound JSON_parse w openaiTools st h
  = match tool_calls m with
    | Some (toolCall :: calls) =>
        bind (forEachToolCall JSON_parse w (toolCall :: calls)
                (pushMessage st m))
             (fun st2 => ret (nextRound st2, true))
             (h ++ [ChatRequest (requestBody w openaiTools st)])
    | _ => (h ++ [ChatRequest (requestBody w openaiTools st)],
            Normal (pushMessage st m, false))
    end.
Proof.
  intros Hf. unfold oneRound. unfold bind at 1. unfold await at 1.
  rewrite Hf. unfold bind at 1. cbn [firstChoice choices ret].
  destruct (tool_calls m) as [[|toolCall calls]|]; reflexivity.
Qed.

Lemma filter_isCall_eventsOf calls :
  filter isCall (flat_map (eventsOf JSON_parse) calls)
  = map (callEvent JSON_parse) calls.
Proof.
  induction calls as [|toolCall rest IH]; [reflexivity|].
  cbn [flat_map map]. rewrite filter_app, IH.
  unfold eventsOf, logOf. destruct (JSON_parse (tc_arguments toolCall));
    reflexivity.
Qed.

Lemma count_isChat_eventsOf calls :
  count isChat (flat_map (eventsOf JSON_parse) calls) = 0.
Proof.
  induction calls as [|toolCall rest IH]; [reflexivity|].
  cbn [flat_map]. rewrite count_app, IH.
  unfold eventsOf, logOf. destruct (JSON_parse (tc_arguments toolCall));
    reflexivity.
Qed.

Lemma count_isCall_eventsOf calls :
  count isCall (flat_map (eventsOf JSON_parse) calls) = List.length calls.
Proof.
  unfold count. now rewrite filter_isCall_eventsOf, length_map.
Qed.

Lemma toolMessages_ids calls :
  forall texts,
    List.length texts = List.length calls ->
    map tool_call_id (toolMessages calls texts)
    = map (fun c => Some (tc_id c)) calls
    /\ Forall (fun x => role x = tool) (toolMessages calls texts)
    /\ List.length (toolMessages calls texts) = List.length calls.
Proof.
  unfold toolMessages.
  induction calls as [|c calls IH]; intros [|t texts] Hlen;
    try discriminate; cbn [combine map List.length fst snd].
  - repeat split. constructor.
  - injection Hlen as Hlen. destruct (IH texts Hlen) as (I & R & L).
    rewrite I, L. repeat split. now constructor.
Qed.

Lemma NoDup_map_injective {A B} (f : A -> B) (l : list A) :
  NoDup (map f l) ->
  forall a b, In a l -> In b l -> f a = f b -> a = b.
Proof.
  induction l as [|x l IH]; intros Hn a b Ha Hb E; [contradiction|].
  cbn [map] in Hn. inversion Hn as [|? ? Hx Hl]; subst.
  destruct Ha as [<- | Ha], Hb as [<- | Hb].
  - reflexivity.
  - exfalso. apply Hx. rewrite E. now apply in_map.
  - exfalso. apply Hx. rewrite <- E. now apply in_map.
  - now apply IH.
Qed.

(** When the invocations have distinct ids, the id of a tool message is
    that of one invocation only. *)
Lemma toolMessages_unique calls texts :
  NoDup (map tc_id calls) ->
  Forall (fun x => exists c,
            In c calls /\ tool_call_id x = Some (tc_id c)
            /\ forall c', In c' calls ->
                          tool_call_id x = Some (tc_id c') -> c' = c)
         (toolMessages calls texts).
Proof.
  intros Hn. apply Forall_forall. intros x Hx.
  unfold toolMessages in Hx. apply in_map_iff in Hx as ([c t] & <- & Hin).
  apply in_combine_l in Hin. exists c. cbn [fst snd toolMessage tool_call_id].
  repeat split; [assumption|].
  intros c' Hc' [= E].
  now apply (NoDup_map_injective tc_id calls Hn).
Qed.

Lemma toolMessages_contents calls :
  forall texts,
    List.length texts = List.length calls ->
    map content (toolMessages calls texts) = map Some texts.
Proof.
  unfold toolMessages.
  induction calls as [|c calls IH]; intros [|t texts] Hlen;
    try discriminate; cbn [combine map fst snd]; [reflexivity|].
  injection Hlen as Hlen. now rewrite (IH texts Hlen).
Qed.

(** *** The tools of a round, one by one *)

Lemma answerAt_head h c rest :
  answerAt JSON_parse w h (c :: rest) 0 c
  = callTool w (h ++ logOf JSON_parse c) (tc_name c)
      (argsOrEmpty JSON_parse (tc_arguments c)).
Proof. reflexivity. Qed.

Lemma answerAt_tail h c rest i c' :
  answerAt JSON_parse w h (c :: rest) (S i) c'
  = answerAt JSON_parse w (h ++ eventsOf JSON_parse c) rest i c'.
Proof.
  unfold answerAt. cbn [firstn flat_map]. now rewrite <- !app_assoc.
Qed.

(** When none of the tools fails, every invocation is executed, in the
    order of the list, and each leaves the tool message of its own
    result. *)
Lemma forEachToolCall_all calls :
  forall st h,
    (forall i c, nth_error calls i = Some c ->
                 isThrow (answerAt JSON_parse w h calls i c) = false) ->
    exists results,
      List.length results = List.length calls
      /\ (forall i c r,
            nth_error calls i = Some c -> nth_error results i = Some r ->
            answerAt JSON_parse w h calls i c = Normal r)
      /\ forEachToolCall JSON_parse w calls st h
         = (h ++ flat_map (eventsOf JSON_parse) calls,
            Normal (mkLoopState
                      (st_messages st
                       ++ toolMessages calls (map resultText results))
                      (st_toolCalls st ++ map tc_name calls)
                      (st_round st))).
Proof.
  induction calls as [|c rest IH]; intros st h Hok.
  - exists []. split; [reflexivity|]. split.
    + intros [|i] c r Hc; discriminate.
    + unfold toolMessages. cbn. rewrite !app_nil_r. now destruct st.
  - rewrite forEachToolCall_cons.
    pose proof (Hok 0 c eq_refl) as H0. rewrite answerAt_head in H0.
    destruct (callTool w (h ++ logOf JSON_parse c) _ _) as [r|e] eqn:T;
      [|discriminate].
    destruct (IH (afterCall st c r) (h ++ eventsOf JSON_parse c))
      as (results & Hlen & Hres & E).
    { intros i c' Hc'. rewrite <- (answerAt_tail h c rest i c').
      now apply Hok. }
    exists (r :: results). split; [cbn; now rewrite Hlen|]. split.
    + intros [|i] c' r' Hc' Hr'; cbn [nth_error] in Hc', Hr'.
      * injection Hc' as <-. injection Hr' as <-.
        now rewrite answerAt_head.
      * rewrite answerAt_tail. now apply Hres.
    + rewrite E. cbn [flat_map]. rewrite <- app_assoc.
      unfold afterCall, toolMessages, resultText.
      cbn [st_messages st_toolCalls st_round combine map fst snd].
      now rewrite <- !app_assoc.
Qed.

(** The first tool that fails ends the loop: the invocations up to its own
    are executed, those after it are not. *)
Lemma forEachToolCall_first_failure calls :
  forall st h i c e,
    nth_error calls i = Some c ->
    (forall j cj, j < i -> nth_error calls j = Some cj ->
                  isThrow (answerAt JSON_parse w h calls j cj) = false) ->
    answerAt JSON_parse w h calls i c = Throw e ->
    forEachToolCall JSON_parse w calls st h
    = (h ++ flat_map (eventsOf JSON_parse) (firstn (S i) calls), Throw e).
Proof.
  induction calls as [|c0 rest IH]; intros st h i c e Hc Hbefore Hfail.
  - destruct i; discriminate.
  - rewrite forEachToolCall_cons. destruct i as [|i].
    + cbn [nth_error] in Hc. injection Hc as <-.
      rewrite answerAt_head in Hfail. rewrite Hfail.
      cbn [firstn flat_map]. now rewrite app_nil_r.
    + pose proof (Hbefore 0 c0 ltac:(lia) eq_refl) as H0.
      rewrite answerAt_head in H0.
      destruct (callTool w (h ++ logOf JSON_parse c0) _ _) as [r|e0];
        [|discriminate].
      cbn [nth_error] in Hc. rewrite answerAt_tail in Hfail.
      rewrite (IH (afterCall st c0 r) (h ++ eventsOf JSON_parse c0)
                 i c e Hc).
      * cbn [firstn flat_map]. now rewrite <- app_assoc.
      * intros j cj Hj Hcj. rewrite <- (answerAt_tail h c0 rest j cj).
        apply Hbefore; [lia | exact Hcj].
      * exact Hfail.
Qed.

End RoundFacts.



(** ** Whole runs *)

Section RunFacts.

Local Open Scope nat_scope.
Local Open Scope list_scope.

Variable JSON_parse : string -> option JSON.
Variable systemPrompt : string -> string.
Variable w : World.

Lemma lastMessage_snoc ms m : lastMessage (ms ++ [m]) = Some m.
Proof.
  unfold lastMessage. rewrite length_app. cbn [List.length].
  replace (List.length ms + 1 - 1) with (List.length ms) by lia.
  rewrite nth_error_app2 by lia. now rewrite Nat.sub_diag.
Qed.

Lemma lastMessage_nonempty ms : ms <> [] -> exists m, lastMessage ms = Some m.
Proof.
  intros H. destruct (exists_last H) as (front & m & ->).
  exists m. apply lastMessage_snoc.
Qed.

Lemma lastMessage_toolMessages ms calls texts :
  List.length texts = List.length calls ->
  calls <> [] ->
  exists m text,
    lastMessage (ms ++ toolMessages calls texts) = Some m
    /\ role m = tool /\ content m = Some text.
Proof.
  intros Hlen Hne.
  assert (Hn : toolMessages calls texts <> []).
  { intros E. apply (f_equal (@List.length ChatMessage)) in E.
    rewrite (proj2 (proj2 (toolMessages_ids calls texts Hlen))) in E.
    destruct calls; [congruence | discriminate]. }
  destruct (exists_last Hn) as (front & m & E).
  exists m.
  assert (Hin : In m (toolMessages calls texts))
    by (rewrite E; apply in_or_app; right; now left).
  unfold toolMessages in Hin. apply in_map_iff in Hin as ([c t] & <- & _).
  exists t. rewrite E, app_assoc, lastMessage_snoc. now repeat split.
Qed.

(** With collaborators that answer, one round completes; it counts every
    invocation it executes. *)
Lemma oneRound_ok openaiTools st h :
  chatAnswers w -> toolsNeverFail w ->
  exists mid st' go,
    oneRound JSON_parse w openaiTools st h = (h ++ mid, Normal (st', go))
    /\ List.length (st_toolCalls st')
       = List.length (st_toolCalls st) + count isCall mid
    /\ st_messages st' <> [].
Proof.
  intros Hc Ht.
  destruct (Hc h (requestBody w openaiTools st)) as (m & rest & Hf).
  rewrite (oneRound_eq JSON_parse w openaiTools st h m rest Hf).
  set (body := requestBody w openaiTools st).
  assert (Hplain :
    exists mid st' go,
      (h ++ [ChatRequest body], Normal (pushMessage st m, false))
      = (h ++ mid, Normal (st', go))
      /\ List.length (st_toolCalls st')
         = List.length (st_toolCalls st) + count isCall mid
      /\ st_messages st' <> []).
  { exists [ChatRequest body], (pushMessage st m), false.
    repeat split; [cbn; lia|].
    cbn. intros E. now apply app_eq_nil in E as [_ E]. }
  destruct (tool_calls m) as [[|toolCall calls]|]; try exact Hplain.
  destruct (forEachToolCall_ok JSON_parse w (toolCall :: calls) Ht
              (pushMessage st m) (h ++ [ChatRequest body]))
    as (h1 & st2 & F).
  unfold bind. rewrite F.
  apply forEachToolCall_normal in F as (-> & texts & Hlen & ->).
  exists (ChatRequest body
          :: flat_map (eventsOf JSON_parse) (toolCall :: calls)).
  eexists. exists true. cbn [ret].
  split; [now rewrite <- app_assoc|].
  cbn [nextRound pushMessage st_messages st_toolCalls].
  split.
  - rewrite length_app, length_map.
    change (ChatRequest body
            :: flat_map (eventsOf JSON_parse) (toolCall :: calls))
      with ([ChatRequest body]
            ++ flat_map (eventsOf JSON_parse) (toolCall :: calls)).
    rewrite count_app, count_isCall_eventsOf. reflexivity.
  - intros E. apply app_eq_nil in E as [E _].
    now apply app_eq_nil in E as [_ E].
Qed.

Lemma whileRounds_ok openaiTools remaining :
  chatAnswers w -> toolsNeverFail w ->
  forall st h, exists mid st',
    whileRounds JSON_parse w openaiTools remaining st h
    = (h ++ mid, Normal st')
    /\ List.length (st_toolCalls st')
       = List.length (st_toolCalls st) + count isCall mid
    /\ (st_messages st <> [] -> st_messages st' <> []).
Proof.
  intros Hc Ht.
  induction remaining as [|remaining IH]; intros st h; cbn [whileRounds].
  - exists [], st. rewrite app_nil_r. repeat split; [cbn; lia | auto].
  - destruct (oneRound_ok openaiTools st h Hc Ht)
      as (mid1 & st1 & go & E1 & C1 & M1).
    unfold bind. rewrite E1. cbn [fst snd]. destruct go.
    + destruct (IH st1 (h ++ mid1)) as (mid2 & st2 & E2 & C2 & M2).
      exists (mid1 ++ mid2), st2. rewrite E2, app_assoc.
      repeat split; [rewrite count_app; lia | auto].
    + exists mid1, st1. repeat split; auto.
Qed.

(** *** Runs in which every round asks for tools *)

Lemma everyCall_from P before h e rest :
  forallb (fun c => P (fst c) (snd c)) (callsOf before (h ++ e :: rest))
  = true ->
  P (before ++ h) e = true.
Proof.
  revert before. induction h as [|a h IH]; intros before Hb;
    cbn [app callsOf forallb fst snd] in Hb;
    apply andb_true_iff in Hb as [Hb1 Hb2].
  - now rewrite app_nil_r.
  - apply IH in Hb2. now rewrite <- app_assoc in Hb2.
Qed.

(** What holds of every call of a history holds of each. *)
Lemma everyCall_at P H h e rest :
  everyCall P H = true -> H = h ++ e :: rest -> P h e = true.
Proof.
  unfold everyCall. intros Hb ->.
  exact (everyCall_from P [] h e rest Hb).
Qed.

Lemma extends_bind {A B} n (m : IO A) (k : A -> IO B) h H tail :
  (forall a, effects n (k a)) ->
  H = fst (bind m k h) ++ tail ->
  exists tail', H = fst (m h) ++ tail'.
Proof.
  intros Hk ->. unfold bind. destruct (m h) as [h1 [a|e]]; cbn [fst].
  - destruct (Hk a h1) as (mid & E & _). rewrite E, <- app_assoc.
    now exists (mid ++ tail).
  - now exists tail.
Qed.

(** In a history where no tool failed, a [for] loop that is part of it
    ran to its end. *)
Lemma forEachToolCall_answered H calls :
  everyCall (answered w) H = true ->
  forall st h tail,
    H = fst (forEachToolCall JSON_parse w calls st h) ++ tail ->
    exists st',
      forEachToolCall JSON_parse w calls st h
      = (h ++ flat_map (eventsOf JSON_parse) calls, Normal st').
Proof.
  intros HA. induction calls as [|c rest IH]; intros st h tail E.
  - exists st. cbn. now rewrite app_nil_r.
  - rewrite forEachToolCall_cons in E |- *.
    destruct (callTool w (h ++ logOf JSON_parse c) _ _) as [result|e] eqn:T.
    + destruct (IH _ _ tail E) as (st' & ->). exists st'.
      cbn [flat_map]. now rewrite <- app_assoc.
    + exfalso. cbn [fst] in E. unfold eventsOf in E.
      rewrite app_assoc, <- app_assoc in E. cbn [app] in E.
      pose proof (everyCall_at _ _ _ _ _ HA E) as Ans.
      unfold callEvent in Ans. cbn [answered] in Ans.
      rewrite T in Ans. discriminate.
Qed.

Lemma oneRound_starts openaiTools st h :
  exists mid,
    fst (oneRound JSON_parse w openaiTools st h)
    = h ++ ChatRequest (requestBody w openaiTools st) :: mid.
Proof.
  set (body := requestBody w openaiTools st).
  destruct (fetchData w h body) as [[[|m ms]]|e] eqn:F.
  - exists []. unfold oneRound, bind, await. fold body. now rewrite F.
  - rewrite (oneRound_eq JSON_parse w openaiTools st h m ms F). fold body.
    destruct (tool_calls m) as [[|c cs]|]; try now exists [].
    destruct (forEachToolCall_history JSON_parse w (c :: cs)
                (pushMessage st m) (h ++ [ChatRequest body]))
      as (k & _ & Hh & _).
    exists (flat_map (eventsOf JSON_parse) (firstn k (c :: cs))).
    unfold bind. destruct (forEachToolCall _ _ _ _ _) as [h1 [st2|e]];
      cbn [fst] in *; subst h1; now rewrite <- app_assoc.
  - exists []. unfold oneRound, bind, await. fold body. now rewrite F.
Qed.

(** A round of a history in which the endpoint asked for tools each time
    and nothing failed: it executed its invocations and goes on. *)
Lemma oneRound_asked H openaiTools st h tail :
  everyCall (answered w) H = true ->
  everyCall (asksForTools w) H = true ->
  H = fst (oneRound JSON_parse w openaiTools st h) ++ tail ->
  exists m c cs texts,
    List.length texts = List.length (c :: cs)
    /\ oneRound JSON_parse w openaiTools st h
       = (h ++ ChatRequest (requestBody w openaiTools st)
            :: flat_map (eventsOf JSON_parse) (c :: cs),
          Normal (nextRound
                    (mkLoopState
                       (st_messages st
                        ++ m :: toolMessages (c :: cs) texts)
                       (st_toolCalls st ++ map tc_name (c :: cs))
                       (st_round st)),
                  true)).
Proof.
  intros HA HT E.
  set (body := requestBody w openaiTools st) in *.
  destruct (oneRound_starts openaiTools st h) as (mid & S).
  fold body in S.
  assert (E1 : H = h ++ ChatRequest body :: (mid ++ tail))
    by (rewrite E, S, <- app_assoc; reflexivity).
  pose proof (everyCall_at _ _ _ _ _ HT E1) as Asks.
  cbn [asksForTools] in Asks.
  destruct (fetchData w h body) as [[[|m ms]]|e] eqn:F; try discriminate.
  destruct (tool_calls m) as [[|c cs]|] eqn:Hm; try discriminate.
  pose proof (oneRound_eq JSON_parse w openaiTools st h m ms F) as R.
  fold body in R. rewrite Hm in R. rewrite R in E |- *.
  unfold bind in E |- *.
  destruct (forEachToolCall_answered H (c :: cs) HA (pushMessage st m)
              (h ++ [ChatRequest body]) tail) as (st2 & F2).
  { destruct (forEachToolCall _ _ _ _ _) as [h1 [st2|e]]; exact E. }
  rewrite F2.
  apply forEachToolCall_normal in F2 as (_ & texts & Hlen & ->).
  exists m, c, cs, texts. split; [exact Hlen|].
  cbn [ret pushMessage st_messages st_toolCalls st_round].
  now rewrite <- !app_assoc.
Qed.

(** In such a history the loop uses every round it has, and the
    conversation ends on a tool message. *)
Lemma whileRounds_asked H openaiTools remaining :
  everyCall (answered w) H = true ->
  everyCall (asksForTools w) H = true ->
  forall st h tail,
    H = fst (whileRounds JSON_parse w openaiTools remaining st h) ++ tail ->
    exists h' st',
      whileRounds JSON_parse w openaiTools remaining st h = (h', Normal st')
      /\ count isChat h' = count isChat h + remaining
      /\ (1 <= remaining ->
          exists m text,
            lastMessage (st_messages st') = Some m
            /\ role m = tool /\ content m = Some text).
Proof.
  intros HA HT.
  induction remaining as [|remaining IH]; intros st h tail E;
    cbn [whileRounds] in E |- *.
  - exists h, st. repeat split; lia.
  - pose proof E as E1.
    apply (extends_bind remaining) in E1 as (tail1 & E1).
    2:{ intros [st1 go]. cbn [fst snd]. destruct go;
          [apply effects_whileRounds | apply effects_ret]. }
    destruct (oneRound_asked H openaiTools st h tail1 HA HT E1)
      as (m & c & cs & texts & Hlen & R).
    unfold bind at 1 in E. unfold bind at 1. rewrite R in E |- *.
    cbn [fst snd] in E |- *.
    destruct (IH _ _ tail E) as (h' & st' & W & C & L).
    exists h', st'. split; [exact W|]. split.
    + rewrite C.
      change (ChatRequest (requestBody w openaiTools st)
              :: flat_map (eventsOf JSON_parse) (c :: cs))
        with ([ChatRequest (requestBody w openaiTools st)]
              ++ flat_map (eventsOf JSON_parse) (c :: cs)).
      rewrite !count_app, count_isChat_eventsOf. cbn. lia.
    + intros _. destruct remaining as [|remaining'].
      * cbn [whileRounds ret] in W. injection W as _ <-.
        cbn [nextRound st_messages].
        change (st_messages st ++ m :: toolMessages (c :: cs) texts)
          with (st_messages st ++ [m] ++ toolMessages (c :: cs) texts).
        rewrite app_assoc.
        apply lastMessage_toolMessages; [exact Hlen | discriminate].
      * apply L. lia.
Qed.

Lemma finalAnswer_eq st m h :
  lastMessage (st_messages st) = Some m ->
  finalAnswer st h
  = (h, Normal {| answer := trim (textOf (content m));
                  toolCalls := List.length (st_toolCalls st) |}).
Proof.
  intros H. unfold finalAnswer. rewrite H. cbn [ret].
  destruct (content m) as [[|c s]|]; reflexivity.
Qed.

Lemma session_eq prompt toolList :
  connect w [] = Normal tt ->
  listTools w [Connect] = Normal toolList ->
  session JSON_parse systemPrompt w prompt []
  = whileRounds JSON_parse w (map toFunctionTool toolList) maxRounds
      (mkLoopState
         [ mkChatMessage system (Some (systemPrompt (currentDateTime w)))
             None None;
           mkChatMessage user (Some prompt) None None ] [] 0)
      [Connect; ListTools].
Proof.
  intros Hc Hl. unfold session, bind, await. cbn [app].
  now rewrite Hc, Hl.
Qed.

Lemma callMcpClient_eq prompt h st m :
  session JSON_parse systemPrompt w prompt [] = (h, Normal st) ->
  lastMessage (st_messages st) = Some m ->
  close w h = Normal tt ->
  callMcpClient JSON_parse systemPrompt w prompt []
  = (h ++ [Close],
     Normal {| answer := trim (textOf (content m));
               toolCalls := List.length (st_toolCalls st) |}).
Proof.
  intros Hs Hl Hc. unfold callMcpClient, tryFinally, bind.
  rewrite Hs, (finalAnswer_eq st m h Hl). unfold await. now rewrite Hc.
Qed.

(** The history of a run is that of its session, and the closing. *)
Lemma callMcpClient_session prompt :
  fst (callMcpClient JSON_parse systemPrompt w prompt [])
  = fst (session JSON_parse systemPrompt w prompt []) ++ [Close].
Proof.
  unfold callMcpClient, tryFinally, bind.
  destruct (session JSON_parse systemPrompt w prompt []) as [h1 [st|e]];
    cbn [fst].
  - unfold finalAnswer. destruct (lastMessage (st_messages st));
      cbn [ret throw]; unfold await; destruct (close w h1); reflexivity.
  - unfold await. destruct (close w h1); reflexivity.
Qed.

End RunFacts.

(** C4, as the code has it.  A run sends at most 5 requests to the chat
    endpoint.  When, in the run, the endpoint answered every request with
    tool invocations and no collaborator failed when it was called, all 5
    rounds were used and the run returns normally: its answer is the
    content of the last message of the conversation, a tool message, with
    the white space around it trimmed.  The conditions bear on the calls
    the run made only, not on what the collaborators would do elsewhere. *)
Theorem at_most_five_rounds
  (JSON_parse : string -> option JSON) (systemPrompt : string -> string)
  (w : World) (prompt : string) :
  let run := callMcpClient JSON_parse systemPrompt w prompt [] in
  (count isChat (fst run) <= 5)%nat
  /\ (everyCall (answered w) (fst run) = true ->
      everyCall (asksForTools w) (fst run) = true ->
      exists h st m text,
        session JSON_parse systemPrompt w prompt [] = (h, Normal st)
        /\ count isChat h = 5%nat
        /\ lastMessage (st_messages st) = Some m
        /\ role m = tool
        /\ content m = Some text
        /\ run
           = ((h ++ [Close])%list,
              Normal {| answer := trim text;
                        toolCalls := List.length (st_toolCalls st) |})).
Proof.
  cbv zeta. split.
  - destruct (callMcpClient_history JSON_parse systemPrompt w prompt [])
      as (mid & E & _ & C).
    rewrite E. cbn [app]. rewrite count_app. cbn. unfold maxRounds in C. lia.
  - set (H := fst (callMcpClient JSON_parse systemPrompt w prompt [])).
    intros HA HT.
    pose proof (callMcpClient_session JSON_parse systemPrompt w prompt)
      as E0. fold H in E0.
    assert (Hc : connect w [] = Normal tt).
    { destruct (connect w []) as [[]|e] eqn:C; [reflexivity|]. exfalso.
      assert (E : H = ([] ++ Connect :: [Close])%list).
      { rewrite E0. unfold session, bind, await. now rewrite C. }
      pose proof (everyCall_at _ _ _ _ _ HA E) as Ans.
      cbn [answered] in Ans. rewrite C in Ans. discriminate. }
    assert (Hl : exists toolList, listTools w [Connect] = Normal toolList).
    { destruct (listTools w [Connect]) as [toolList|e] eqn:L;
        [now exists toolList|]. exfalso.
      assert (E : H = ([Connect] ++ ListTools :: [Close])%list).
      { rewrite E0. unfold session, bind, await. cbn [app].
        now rewrite Hc, L. }
      pose proof (everyCall_at _ _ _ _ _ HA E) as Ans.
      cbn [answered] in Ans. rewrite L in Ans. discriminate. }
    destruct Hl as (toolList & Hl).
    pose proof (session_eq JSON_parse systemPrompt w prompt toolList
                  Hc Hl) as Es.
    rewrite Es in E0.
    destruct (whileRounds_asked JSON_parse w H
                (map toFunctionTool toolList) maxRounds HA HT
                _ _ [Close] E0)
      as (h & st & E & C & L).
    rewrite E in Es, E0. cbn [fst] in E0.
    destruct L as (m & text & Hm & Hr & Ht'); [unfold maxRounds; lia|].
    assert (Hx : close w h = Normal tt).
    { pose proof (everyCall_at _ _ _ _ _ HA E0) as Ans.
      cbn [answered] in Ans.
      destruct (close w h) as [[]|e]; [reflexivity | discriminate]. }
    exists h, st, m, text.
    split; [exact Es|]. split; [rewrite C; reflexivity|].
    split; [exact Hm|]. split; [exact Hr|]. split; [exact Ht'|].
    rewrite (callMcpClient_eq JSON_parse systemPrompt w prompt h st m
               Es Hm Hx).
    now rewrite Ht'.
Qed.

Lemma at_most_five_rounds_witness :
  exists h st m text,
    session SampleWorld.parseEmptyObject SampleWorld.promptFor
      SampleWorld.asksFiveTimes "What is on today?" []
    = (h, Normal st)
    /\ count isChat h = 5%nat
    /\ lastMessage (st_messages st) = Some m
    /\ role m = tool
    /\ content m = Some text
    /\ callMcpClient SampleWorld.parseEmptyObject SampleWorld.promptFor
         SampleWorld.asksFiveTimes "What is on today?" []
       = ((h ++ [Close])%list,
          Normal {| answer := trim text;
                    toolCalls := List.length (st_toolCalls st) |}).
Proof.
  apply (proj2 (at_most_five_rounds SampleWorld.parseEmptyObject
                  SampleWorld.promptFor SampleWorld.asksFiveTimes
                  "What is on today?")).
  - vm_compute. reflexivity.
  - vm_compute. reflexivity.
Defined.

(** C4, as the claim has it, fails in its last part.  When the tool answers
    with white space around its text, the answer of the run is not the
    content of the last message but that content trimmed; and when a tool
    fails in the fifth round, all five rounds have returned invocations and
    the run throws. *)
Lemma answer_is_trimmed_content :
  (exists h st m,
     session SampleWorld.parseEmptyObject SampleWorld.promptFor
       (SampleWorld.indecisive " x ") "What is on today?" []
     = (h, Normal st)
     /\ count isChat h = 5%nat
     /\ lastMessage (st_messages st) = Some m
     /\ content m = Some " x "
     /\ snd (callMcpClient SampleWorld.parseEmptyObject
               SampleWorld.promptFor (SampleWorld.indecisive " x ")
               "What is on today?" [])
        = Normal {| answer := "x"; toolCalls := 5 |})
  /\ (let run :=
        callMcpClient SampleWorld.parseEmptyObject SampleWorld.promptFor
          SampleWorld.failsInLastRound "What is on today?" [] in
      count isChat (fst run) = 5%nat
      /\ count isCall (fst run) = 5%nat
      /\ isThrow (snd run) = true).
Proof.
  split.
  - eexists. eexists. eexists.
    split; [vm_compute; reflexivity|].
    split; [vm_compute; reflexivity|].
    split; [vm_compute; reflexivity|].
    split; vm_compute; reflexivity.
  - cbv zeta. repeat split; vm_compute; reflexivity.
Qed.



(** * Further properties *)

(** ** [escapeText] *)

(** X1.  [escapeText] loses nothing: two texts with the same escaped form are
    the same text. *)
Theorem escapeText_injective (a b : string) :
  escapeText a = escapeText b -> a = b.
Proof.
  intros H. rewrite <- (unescape_escapeText a), <- (unescape_escapeText b).
  now rewrite H.
Qed.

Lemma escapeText_injective_witness : "a,b" = "a,b".
Proof. exact (escapeText_injective "a,b" "a,b" eq_refl). Defined.

(** X2.  Escaping goes through concatenation: the escaped form of two texts
    put together is their escaped forms put together, and the empty text
    stays empty. *)
Theorem escapeText_append (a b : string) :
  escapeText (a ++ b) = escapeText a ++ escapeText b
  /\ escapeText "" = "".
Proof.
  split; [|reflexivity].
  unfold escapeText. now rewrite !replaceAll_app.
Qed.

Lemma length_append (a b : string) :
  String.length (a ++ b) = (String.length a + String.length b)%nat.
Proof. induction a as [|c a IH]; simpl; congruence. Qed.

(** X3.  The escaped form is longer than the text by exactly the number of
    backslashes, commas, semicolons and line feeds in it; a text with none
    of them is left as it is. *)
Theorem escapeText_length (s : string) :
  String.length (escapeText s)
  = (String.length s + CodecExtra.countChars CodecExtra.needsEscape s)%nat
  /\ (CodecExtra.countChars CodecExtra.needsEscape s = 0%nat <->
      escapeText s = s).
Proof.
  assert (L : String.length (escapeText s)
              = (String.length s
                 + CodecExtra.countChars CodecExtra.needsEscape s)%nat).
  { rewrite escapeText_spec.
    induction s as [|c s IH]; [reflexivity|].
    cbn [escapeSpec CodecExtra.countChars String.length].
    rewrite length_append, IH.
    unfold escapeChar, CodecExtra.needsEscape.
    destruct (isSpecial c); [cbn; lia|].
    destruct (isLF c); cbn; lia. }
  split; [exact L|]. split.
  - intros H0. rewrite escapeText_spec.
    induction s as [|c s IH]; [reflexivity|].
    cbn [CodecExtra.countChars] in H0, L.
    cbn [escapeSpec]. unfold escapeChar.
    unfold CodecExtra.needsEscape in H0.
    destruct (isSpecial c); [cbn in H0; lia|].
    destruct (isLF c); [cbn in H0; lia|].
    cbn in H0. cbn [append]. f_equal. apply IH; [|exact H0].
    rewrite escapeText_spec.
    clear. induction s as [|d s IH]; [reflexivity|].
    cbn [escapeSpec CodecExtra.countChars String.length].
    rewrite length_append, IH.
    unfold escapeChar, CodecExtra.needsEscape.
    destruct (isSpecial d); [cbn; lia|].
    destruct (isLF d); cbn; lia.
  - intros E. rewrite E in L. lia.
Qed.

(** ** [toCalDav] *)

Section ToCalDavFacts.

Variable zoneOffset : Z -> Z.

Lemma fields_of_whole_second t r :
  0 <= r < 1000 -> (t - r) mod 1000 = 0 ->
  Day (t - r) = Day t
  /\ HourFromTime (t - r) = HourFromTime t
  /\ MinFromTime (t - r) = MinFromTime t
  /\ SecFromTime (t - r) = SecFromTime t.
Proof.
  intros Hr Hm.
  unfold Day, HourFromTime, MinFromTime, SecFromTime,
    msPerDay, msPerHour, msPerMinute, msPerSecond.
  repeat split; Z.div_mod_to_equations; lia.
Qed.

Lemma tsToObj_whole_second ts offset :
  tsToObj (ts - ts mod 1000) offset = tsToObj ts offset.
Proof.
  unfold tsToObj.
  set (t := ts + offset * 60 * 1000).
  replace (ts - ts mod 1000 + offset * 60 * 1000) with (t - ts mod 1000)
    by (subst t; lia).
  destruct (fields_of_whole_second t (ts mod 1000)) as (D & H & M & S).
  { Z.div_mod_to_equations. lia. }
  { subst t. Z.div_mod_to_equations. lia. }
  rewrite H, M, S.
  unfold DateFromTime, MonthFromTime, DayWithinYear, InLeapYear,
    YearFromTime. now rewrite D.
Qed.

Lemma isDigit_digitChar k :
  0 <= k <= 9 -> CodecExtra.isDigit (digitChar k) = true.
Proof.
  intros Hk. unfold CodecExtra.isDigit.
  now rewrite digitValue_digitChar.
Qed.

End ToCalDavFacts.

(** X4.  [toCalDav] keeps whole seconds only: a time value and the start of
    its second are written alike (the zone's offset being the same at
    both). *)
Theorem toCalDav_drops_milliseconds (zoneOffset : Z -> Z) (ts : Z) :
  zoneOffset (ts - ts mod 1000) = zoneOffset ts ->
  toCalDav zoneOffset (Some (TimeValue (ts - ts mod 1000)))
  = toCalDav zoneOffset (Some (TimeValue ts)).
Proof.
  intros H. unfold toCalDav. now rewrite H, tsToObj_whole_second.
Qed.

Lemma toCalDav_drops_milliseconds_witness :
  toCalDav helsinkiOffset (Some (TimeValue (1730000000999
                                            - 1730000000999 mod 1000)))
  = toCalDav helsinkiOffset (Some (TimeValue 1730000000999)).
Proof.
  apply (toCalDav_drops_milliseconds helsinkiOffset 1730000000999).
  vm_compute. reflexivity.
Defined.

(** X5.  For a time whose local year has four digits, [toCalDav] writes
    fifteen characters: eight digits, the letter T, six digits. *)
Theorem toCalDav_shape (zoneOffset : Z -> Z) (ts : Z) :
  0 <= YearFromTime (ts + zoneOffset ts * 60 * 1000) <= 9999 ->
  let text := toCalDav zoneOffset (Some (TimeValue ts)) in
  String.length text = 15%nat
  /\ String.get 8 text = Some "T"%char
  /\ allChars CodecExtra.isDigit (substring 0 8 text) = true
  /\ allChars CodecExtra.isDigit (substring 9 6 text) = true.
Proof.
  intros Hy. cbv zeta. unfold toCalDav.
  pose proof (tsToObj_inRange ts (zoneOffset ts) Hy) as R.
  rewrite (formatCalDav_inRange _ R).
  destruct R as (Y & Mo & D & H & Mi & S).
  set (c := tsToObj ts (zoneOffset ts)) in *.
  unfold fourDigits, twoDigits.
  split; [reflexivity|]. split; [reflexivity|].
  cbn [append substring allChars].
  rewrite !isDigit_digitChar by (Z.div_mod_to_equations; lia).
  split; reflexivity.
Qed.

Lemma toCalDav_shape_witness :
  String.length (toCalDav helsinkiOffset (Some (TimeValue 1730000000000)))
  = 15%nat.
Proof.
  apply (toCalDav_shape helsinkiOffset 1730000000000).
  vm_compute. split; discriminate.
Defined.

(** ** The lines of a record, once more *)

Section RecordShape.

Variable zoneOffset : Z -> Z.

Lemma join_cons sep (a : string) (rest : list string) :
  rest <> [] -> join sep (a :: rest) = a ++ sep ++ join sep rest.
Proof. destruct rest; [congruence | reflexivity]. Qed.

(** A line that holds the separator counts for two. *)
Lemma join_line_break sep (pre post : list string) (x y : string) :
  join sep (pre ++ (x ++ sep ++ y) :: post)
  = join sep (pre ++ x :: y :: post).
Proof.
  induction pre as [|a pre IH].
  - cbn [app]. rewrite (join_cons sep x (y :: post)) by discriminate.
    destruct post as [|p post'].
    + reflexivity.
    + rewrite !join_cons by discriminate. now rewrite ?append_assoc.
  - cbn [app]. rewrite !join_cons by (now destruct pre). now rewrite IH.
Qed.

Lemma recordLines_uid randomUUID now input t :
  recordLines zoneOffset randomUUID now input t
  = (headerLines
     ++ ("UID:" ++ finalUid randomUUID input)%string
        :: CodecExtra.linesAfterUid zoneOffset now input t)%list.
Proof.
  unfold recordLines, eventLines, CodecExtra.linesAfterUid. cbv zeta.
  rewrite <- !app_assoc. reflexivity.
Qed.

Lemma noLF_linesAfterUid now input t :
  Forall (fun l => noLF l = true)
         (CodecExtra.linesAfterUid zoneOffset now input t).
Proof.
  unfold CodecExtra.linesAfterUid. cbv zeta.
  apply Forall_app. split.
  - repeat (constructor;
            [rewrite noLF_app;
             rewrite ?noLF_toCalDav, ?noLF_escapeText; reflexivity|]).
    constructor.
  - apply Forall_app. split; [now apply noLF_optionalLine|].
    apply Forall_app. split; [now apply noLF_optionalLine|].
    repeat (constructor; [reflexivity|]). constructor.
Qed.

Lemma noLF_headerLines : Forall (fun l => noLF l = true) headerLines.
Proof.
  unfold headerLines. repeat (constructor; [reflexivity|]). constructor.
Qed.

End RecordShape.

(** X6.  The identifier goes into the record as it is given, unescaped: an
    identifier that holds a CRLF pair is read as two lines, the second of
    them a line of the event block of the caller's choosing. *)
Theorem uid_is_written_unescaped (zoneOffset : Z -> Z) (randomUUID : string)
  (now : Z) (input : ICalInput) (t u l : string) :
  title input = Some t ->
  noLF u = true ->
  noLF l = true ->
  exists record,
    generateICal zoneOffset randomUUID now
      (CodecExtra.withUid input (u ++ CRLF ++ l))
    = Normal record
    /\ splitCRLF record
       = (headerLines
          ++ ("UID:" ++ u)%string :: l
             :: CodecExtra.linesAfterUid zoneOffset now input t)%list.
Proof.
  intros Ht Hu Hl.
  set (input' := CodecExtra.withUid input (u ++ CRLF ++ l)).
  assert (Hf : finalUid randomUUID input' = u ++ CRLF ++ l)
    by (unfold finalUid, input'; destruct u; reflexivity).
  eexists. split.
  - unfold generateICal.
    rewrite (icalLines_titled zoneOffset randomUUID now input' t Ht).
    reflexivity.
  - cbn [bindC]. rewrite recordLines_uid, Hf.
    change (CodecExtra.linesAfterUid zoneOffset now input' t)
      with (CodecExtra.linesAfterUid zoneOffset now input t).
    rewrite <- (append_assoc "UID:" u (CRLF ++ l)).
    rewrite join_line_break.
    apply splitCRLF_join.
    + intros E. apply (f_equal (@List.length string)) in E.
      rewrite length_app in E. cbn [List.length] in E. lia.
    + apply Forall_app. split; [apply noLF_headerLines|].
      constructor; [now rewrite noLF_app, Hu|].
      constructor; [exact Hl|]. apply noLF_linesAfterUid.
Qed.

Lemma uid_is_written_unescaped_witness :
  exists record,
    generateICal helsinkiOffset "id" 0
      (CodecExtra.withUid Samples.noStart ("a" ++ CRLF ++ "SUMMARY:b"))
    = Normal record
    /\ hasLine "SUMMARY:b" record = true.
Proof.
  destruct (uid_is_written_unescaped helsinkiOffset "id" 0 Samples.noStart
              "Lunch" "a" "SUMMARY:b" eq_refl eq_refl eq_refl)
    as (record & Hg & Hs).
  exists record. split; [exact Hg|].
  unfold hasLine. rewrite Hs. reflexivity.
Defined.

(** X7.  Whatever the event, the text of its record opens with the same 22
    lines (calendar header and timezone block), closes with END:VEVENT and
    END:VCALENDAR, and has 29 lines and one more for each of description
    and location that is a non-empty string (the identifier being free of
    line feeds). *)
Theorem record_line_structure (zoneOffset : Z -> Z) (randomUUID : string)
  (now : Z) (input : ICalInput) (record : string) :
  noLF (finalUid randomUUID input) = true ->
  generateICal zoneOffset randomUUID now input = Normal record ->
  let lines := splitCRLF record in
  firstn 22 lines = headerLines
  /\ List.length lines
     = (29 + CodecExtra.bit (truthy (description input))
        + CodecExtra.bit (truthy (location input)))%nat
  /\ skipn (List.length lines - 2) lines = ["END:VEVENT"; "END:VCALENDAR"].
Proof.
  intros Hu Hg. cbv zeta.
  destruct (record_lines _ _ _ _ _ Hu Hg) as (t & _ & ->).
  rewrite recordLines_uid. unfold CodecExtra.linesAfterUid. cbv zeta.
  destruct (description input) as [[|c1 d]|],
           (location input) as [[|c2 l]|]; repeat split.
Qed.

Lemma record_line_structure_witness :
  exists record,
    generateICal helsinkiOffset "id" 0 Samples.teamSync = Normal record
    /\ List.length (splitCRLF record) = 31%nat.
Proof.
  eexists. split; [reflexivity|].
  exact (proj1 (proj2 (record_line_structure helsinkiOffset "id" 0
                         Samples.teamSync _ eq_refl eq_refl))).
Defined.

(** ** The tool session, once more *)

Section SessionExtraFacts.

Local Open Scope nat_scope.
Local Open Scope list_scope.

Import SessionExtra.

Variable JSON_parse : string -> option JSON.
Variable systemPrompt : string -> string.
Variable w : World.

Lemma chatBodies_app a b : chatBodies (a ++ b) = chatBodies a ++ chatBodies b.
Proof. unfold chatBodies. apply flat_map_app. Qed.

Lemma chatBodies_eventsOf calls :
  chatBodies (flat_map (eventsOf JSON_parse) calls) = [].
Proof.
  induction calls as [|c calls IH]; [reflexivity|].
  cbn [flat_map]. rewrite chatBodies_app, IH.
  unfold eventsOf, logOf. destruct (JSON_parse (tc_arguments c));
    reflexivity.
Qed.

Lemma isPrefix_refl {A} (a : list A) : isPrefix a a.
Proof. exists []. now rewrite app_nil_r. Qed.

Lemma isPrefix_trans {A} (a b c : list A) :
  isPrefix a b -> isPrefix b c -> isPrefix a c.
Proof.
  intros [r1 ->] [r2 ->]. exists (r1 ++ r2). now rewrite app_assoc.
Qed.

Lemma isPrefix_app {A} (a r : list A) : isPrefix a (a ++ r).
Proof. now exists r. Qed.

(** One round sends one request, with the conversation as it stands; the
    conversation it leaves extends it. *)
Lemma oneRound_requests openaiTools st h :
  exists mid,
    fst (oneRound JSON_parse w openaiTools st h)
    = h ++ ChatRequest (requestBody w openaiTools st) :: mid
    /\ chatBodies mid = []
    /\ forall st' go,
         snd (oneRound JSON_parse w openaiTools st h) = Normal (st', go) ->
         isPrefix (st_messages st) (st_messages st').
Proof.
  set (body := requestBody w openaiTools st).
  destruct (fetchData w h body) as [[[|m rest]]|e] eqn:Hf.
  - exists []. unfold oneRound, bind, await. fold body. rewrite Hf.
    cbn. repeat split. discriminate.
  - rewrite (oneRound_eq JSON_parse w openaiTools st h m rest Hf).
    fold body.
    assert (Hplain :
      exists mid,
        fst (h ++ [ChatRequest body], Normal (pushMessage st m, false))
        = h ++ ChatRequest body :: mid
        /\ chatBodies mid = []
        /\ forall st' go,
             snd (h ++ [ChatRequest body],
                  @Normal (LoopState * bool) (pushMessage st m, false))
             = Normal (st', go) ->
             isPrefix (st_messages st) (st_messages st')).
    { exists []. repeat split. intros st' go [= <- _].
      apply isPrefix_app. }
    destruct (tool_calls m) as [[|c calls]|]; try exact Hplain.
    destruct (forEachToolCall_history JSON_parse w (c :: calls)
                (pushMessage st m) (h ++ [ChatRequest body]))
      as (k & _ & Hh & _).
    exists (flat_map (eventsOf JSON_parse) (firstn k (c :: calls))).
    unfold bind.
    destruct (forEachToolCall _ _ _ _ _) as [h1 [st2|e]] eqn:F;
      cbn [fst snd ret] in *; subst h1.
    + split; [now rewrite <- app_assoc|].
      split; [apply chatBodies_eventsOf|].
      intros st' go [= <- _].
      apply forEachToolCall_normal in F as (_ & texts & _ & ->).
      cbn [nextRound pushMessage st_messages].
      rewrite <- app_assoc. apply isPrefix_app.
    + split; [now rewrite <- app_assoc|].
      split; [apply chatBodies_eventsOf | discriminate].
  - exists []. unfold oneRound, bind, await. fold body. rewrite Hf.
    cbn. repeat split. discriminate.
Qed.

Lemma growing_cons {A} (a : list A) (ls : list (list A)) :
  Forall (isPrefix a) ls -> growing ls -> growing (a :: ls).
Proof.
  intros F G. destruct ls as [|b ls]; [exact I|].
  cbn [growing]. inversion F; subst. now split.
Qed.

(** The requests of the loop: each carries the catalog and the model of
    the session, and a conversation that extends the one before. *)
Lemma whileRounds_requests openaiTools remaining :
  forall st h, exists mid,
    fst (whileRounds JSON_parse w openaiTools remaining st h) = h ++ mid
    /\ Forall (fun b => tools b = openaiTools /\ tool_choice b = auto
                        /\ model b = modelOf w
                        /\ isPrefix (st_messages st) (messages b))
              (chatBodies mid)
    /\ growing (map messages (chatBodies mid)).
Proof.
  induction remaining as [|remaining IH]; intros st h; cbn [whileRounds].
  - exists []. cbn. rewrite app_nil_r. repeat split. constructor.
  - destruct (oneRound_requests openaiTools st h) as (mid1 & E1 & C1 & P1).
    set (body := requestBody w openaiTools st) in *.
    assert (Hb : tools body = openaiTools /\ tool_choice body = auto
                 /\ model body = modelOf w
                 /\ isPrefix (st_messages st) (messages body)).
    { repeat split. apply isPrefix_refl. }
    unfold bind.
    destruct (oneRound JSON_parse w openaiTools st h)
      as [h1 [[st1 go]|e]]; cbn [fst snd] in *; subst h1.
    + specialize (P1 st1 go eq_refl).
      destruct go.
      * destruct (IH st1 (h ++ ChatRequest body :: mid1))
          as (mid2 & E2 & F2 & G2).
        exists (ChatRequest body :: mid1 ++ mid2).
        rewrite E2, <- app_assoc. split; [reflexivity|].
        change (ChatRequest body :: mid1 ++ mid2)
          with ([ChatRequest body] ++ mid1 ++ mid2).
        rewrite !chatBodies_app, C1. cbn [chatBodies flat_map app].
        assert (F2' : Forall (fun b => isPrefix (st_messages st)
                                         (messages b)) (chatBodies mid2)).
        { eapply Forall_impl; [|exact F2].
          intros b (_ & _ & _ & Hp). now apply (isPrefix_trans _ _ _ P1). }
        split.
        -- constructor; [exact Hb|].
           rewrite Forall_forall in F2, F2' |- *. intros b Hin.
           destruct (F2 b Hin) as (T & C & M & _).
           repeat split; auto.
        -- cbn [map]. apply growing_cons; [|exact G2].
           apply Forall_map. exact F2'.
      * exists (ChatRequest body :: mid1). split; [reflexivity|].
        change (ChatRequest body :: mid1) with ([ChatRequest body] ++ mid1).
        rewrite chatBodies_app, C1. cbn.
        split; [repeat constructor; apply Hb | exact I].
    + exists (ChatRequest body :: mid1). split; [reflexivity|].
      change (ChatRequest body :: mid1) with ([ChatRequest body] ++ mid1).
      rewrite chatBodies_app, C1. cbn.
      split; [repeat constructor; apply Hb | exact I].
Qed.

(** The requests of a whole run. *)
Lemma callMcpClient_requests prompt :
  let bodies :=
    chatBodies (fst (callMcpClient JSON_parse systemPrompt w prompt [])) in
  Forall (fun b => tool_choice b = auto /\ model b = modelOf w
                   /\ isPrefix (seed systemPrompt w prompt) (messages b)
                   /\ forall toolList,
                        listTools w [Connect] = Normal toolList ->
                        tools b = map toFunctionTool toolList)
         bodies
  /\ growing (map messages bodies).
Proof.
  cbv zeta. unfold callMcpClient, tryFinally.
  assert (Hs : exists mid,
             fst (session JSON_parse systemPrompt w prompt []) = mid
             /\ Forall (fun b => tool_choice b = auto /\ model b = modelOf w
                          /\ isPrefix (seed systemPrompt w prompt)
                                      (messages b)
                          /\ forall toolList,
                               listTools w [Connect] = Normal toolList ->
                               tools b = map toFunctionTool toolList)
                       (chatBodies mid)
             /\ growing (map messages (chatBodies mid))).
  { unfold session, bind, await. cbn [app].
    destruct (connect w []) as [[]|e].
    - destruct (listTools w [Connect]) as [toolList|e] eqn:Hl.
      + destruct (whileRounds_requests (map toFunctionTool toolList)
                    maxRounds
                    (mkLoopState (seed systemPrompt w prompt) [] 0)
                    [Connect; ListTools]) as (mid & E & F & G).
        unfold seed in *. eexists. split; [reflexivity|].
        rewrite E. rewrite chatBodies_app. cbn [chatBodies flat_map app].
        split; [|exact G].
        eapply Forall_impl; [|exact F].
        intros b (T & C & M & P). repeat split; auto.
        intros toolList' [= <-]. exact T.
      + eexists. split; [reflexivity|]. cbn. split; [constructor | exact I].
    - eexists. split; [reflexivity|]. cbn. split; [constructor | exact I]. }
  destruct Hs as (mid & E & F & G).
  unfold bind.
  destruct (session JSON_parse systemPrompt w prompt []) as [h1 [st|e]];
    cbn [fst] in E; subst h1.
  - assert (Hfa : fst (finalAnswer st mid) = mid).
    { unfold finalAnswer. destruct (lastMessage (st_messages st));
        reflexivity. }
    destruct (finalAnswer st mid) as [h2 r]. cbn [fst] in Hfa. subst h2.
    unfold await. destruct (close w mid); cbn [fst];
      rewrite chatBodies_app; cbn [chatBodies flat_map app];
      rewrite app_nil_r; now split.
  - unfold await. destruct (close w mid); cbn [fst];
      rewrite chatBodies_app; cbn [chatBodies flat_map app];
      rewrite app_nil_r; now split.
Qed.

End SessionExtraFacts.



(** X9.  The conversation only grows.  Every request of a run to the chat
    endpoint carries a conversation that begins with the system message and
    the user's prompt, and that extends, message for message, the
    conversation of the request before it. *)
Theorem conversation_is_append_only
  (JSON_parse : string -> option JSON) (systemPrompt : string -> string)
  (w : World) (prompt : string) :
  let bodies :=
    SessionExtra.chatBodies
      (fst (callMcpClient JSON_parse systemPrompt w prompt [])) in
  Forall (fun b => SessionExtra.isPrefix
                     (SessionExtra.seed systemPrompt w prompt) (messages b))
         bodies
  /\ SessionExtra.growing (map messages bodies).
Proof.
  cbv zeta.
  destruct (callMcpClient_requests JSON_parse systemPrompt w prompt)
    as (F & G).
  split; [|exact G].
  eapply Forall_impl; [|exact F]. intros b (_ & _ & P & _). exact P.
Qed.

(** X10.  The tool catalog is fetched once and sent unchanged: every
    request of a run carries the catalog translated from the one answer of
    [listTools], the model of the environment (gpt-4o-mini when none is
    set), and the tool choice [auto]. *)
Theorem every_request_carries_the_catalog
  (JSON_parse : string -> option JSON) (systemPrompt : string -> string)
  (w : World) (prompt : string) (toolList : list Tool) :
  listTools w [Connect] = Normal toolList ->
  Forall (fun b => tools b = map toFunctionTool toolList
                   /\ model b = SessionExtra.modelOf w
                   /\ tool_choice b = auto)
         (SessionExtra.chatBodies
            (fst (callMcpClient JSON_parse systemPrompt w prompt []))).
Proof.
  intros Hl.
  destruct (callMcpClient_requests JSON_parse systemPrompt w prompt)
    as (F & _).
  eapply Forall_impl; [|exact F].
  intros b (C & M & _ & T). repeat split; auto.
Qed.

Lemma every_request_carries_the_catalog_witness :
  Forall (fun b => tools b
                   = map toFunctionTool [mkTool "listEvents" None (JObject [])]
                   /\ model b = "gpt-4o-mini"
                   /\ tool_choice b = auto)
         (SessionExtra.chatBodies
            (fst (callMcpClient SampleWorld.parseEmptyObject
                    SampleWorld.promptFor (SampleWorld.indecisive "ok")
                    "Hello" []))).
Proof.
  exact (every_request_carries_the_catalog SampleWorld.parseEmptyObject
           SampleWorld.promptFor (SampleWorld.indecisive "ok") "Hello"
           [mkTool "listEvents" None (JObject [])] eq_refl).
Defined.

(** X11.  When the peer cannot be reached, or does not give its catalog,
    the run sends nothing to the chat endpoint and calls no tool: it closes
    the transport and throws the error of the peer (that of the closing, if
    the closing fails too). *)
Theorem unreachable_peer_ends_the_run
  (JSON_parse : string -> option JSON) (systemPrompt : string -> string)
  (w : World) (prompt : string) (e : JSError) :
  (connect w [] = Throw e ->
   callMcpClient JSON_parse systemPrompt w prompt []
   = ([Connect; Close],
      Throw match close w [Connect] with
            | Normal _ => e
            | Throw e' => e'
            end))
  /\ (connect w [] = Normal tt -> listTools w [Connect] = Throw e ->
      callMcpClient JSON_parse systemPrompt w prompt []
      = ([Connect; ListTools; Close],
         Throw match close w [Connect; ListTools] with
               | Normal _ => e
               | Throw e' => e'
               end)).
Proof.
  split.
  - intros Hc. unfold callMcpClient, tryFinally, session, bind, await.
    cbn [app]. rewrite Hc. destruct (close w [Connect]); reflexivity.
  - intros Hc Hl. unfold callMcpClient, tryFinally, session, bind, await.
    cbn [app]. rewrite Hc, Hl.
    destruct (close w [Connect; ListTools]); reflexivity.
Qed.

Lemma unreachable_peer_ends_the_run_witness :
  callMcpClient SampleWorld.parseEmptyObject SampleWorld.promptFor
    SessionExtra.unreachable "Hello" []
  = ([Connect; Close], Throw (ExternalFailure "connection refused")).
Proof.
  exact (proj1 (unreachable_peer_ends_the_run SampleWorld.parseEmptyObject
                  SampleWorld.promptFor SessionExtra.unreachable "Hello"
                  (ExternalFailure "connection refused")) eq_refl).
Defined.



(** ** The tool handlers *)

Section HandlerFacts.

Import McpServer.

Variable zoneOffset : Z -> Z.
Variable b : Backend.

Lemma parseAll_ok rawEvents parsed :
  Forall2 (fun data p => icsToJson b data = Normal p) rawEvents parsed ->
  parseAll b rawEvents = Normal parsed.
Proof.
  induction 1 as [|data p rest ps H _ IH]; [reflexivity|].
  cbn [parseAll]. now rewrite H, IH.
Qed.

Lemma parseAll_first_failure good bad rest e :
  Forall (fun data => isThrow (icsToJson b data) = false) good ->
  icsToJson b bad = Throw e ->
  parseAll b (good ++ bad :: rest) = Throw e.
Proof.
  intros Hg Hb. induction Hg as [|data good Hd _ IH]; cbn [app parseAll].
  - now rewrite Hb.
  - destruct (icsToJson b data); [|discriminate]. cbn [bindC].
    now rewrite IH.
Qed.

Lemma failed_is_not_created msg :
  startsWith "Event created successfully for "
    ("Failed to create event: " ++ msg) = false
  /\ startsWith "Failed to create event: "
       ("Failed to create event: " ++ msg) = true.
Proof. split; [reflexivity | apply startsWith_self]. Qed.

End HandlerFacts.

(** X13.  The [createEvent] handler checks nothing and throws nothing.  It
    always asks the calendar client to create the event; its reply begins
    with Event created successfully exactly when the creation, the reading
    back and the parsing succeed and the first parsed event has a start
    and an end, and with Failed to create event otherwise.  So a failure of
    the reading back is reported as a failure although the event was
    created. *)
Theorem createEvent_handler_reply (zoneOffset : Z -> Z)
  (b : McpServer.Backend) (tsNow : Z) (input : CreateEventInput) :
  let event := createEventArgs zoneOffset tsNow input in
  let run := McpServer.createEventHandler zoneOffset b tsNow input in
  (exists rest, fst run = McpServer.CreateEvent event :: rest)
  /\ (exists text,
        snd run = McpServer.reply text
        /\ (startsWith "Event created successfully for " text = true <->
            exists url data first rest,
              McpServer.createEvent b event = Normal url
              /\ McpServer.getEventByUrl b url = Normal data
              /\ McpServer.icsToJson b data = Normal (first :: rest)
              /\ truthy (McpServer.pe_startDate first) = true
              /\ truthy (McpServer.pe_endDate first) = true)
        /\ (startsWith "Event created successfully for " text = false ->
            startsWith "Failed to create event: " text = true))
  /\ (forall url e,
        McpServer.createEvent b event = Normal url ->
        McpServer.getEventByUrl b url = Throw e ->
        run = ([McpServer.CreateEvent event; McpServer.GetEventByUrl url],
               McpServer.reply ("Failed to create event: "
                                ++ McpServer.messageOf e))).
Proof.
  cbv zeta. unfold McpServer.createEventHandler.
  set (event := createEventArgs zoneOffset tsNow input).
  unfold McpServer.tryCatch, McpServer.bindS, McpServer.call,
    McpServer.pureS.
  assert (Hfail : forall msg (P : Prop),
    ~ P ->
    exists text,
      McpServer.reply ("Failed to create event: " ++ msg)
      = McpServer.reply text
      /\ (startsWith "Event created successfully for " text = true <-> P)
      /\ (startsWith "Event created successfully for " text = false ->
          startsWith "Failed to create event: " text = true)).
  { intros msg P N. eexists. split; [reflexivity|].
    rewrite (proj1 (failed_is_not_created msg)).
    split; [split; [discriminate | contradiction]|].
    intros _. apply failed_is_not_created. }
  destruct (McpServer.createEvent b event) as [url|e] eqn:Hc.
  2:{ cbn [fst snd app].
      split; [now exists []|]. split; [|intros u e' [=]].
      apply Hfail. intros (u & d & f & r & H & _). discriminate. }
  destruct (McpServer.getEventByUrl b url) as [data|e] eqn:Hg.
  2:{ cbn [fst snd app].
      split; [eexists; reflexivity|]. split.
      - apply Hfail. intros (u & d & f & r & H1 & H2 & _). congruence.
      - intros u e' [= <-] H. rewrite Hg in H. now injection H as <-. }
  destruct (McpServer.icsToJson b data) as [[|first rest]|e] eqn:Hp;
    cbn [McpServer.createdText].
  - cbn [fst snd app].
    split; [eexists; reflexivity|]. split; [|intros u e' H1 H2; congruence].
    apply Hfail. intros (u & d & f & r & H1 & H2 & H3 & _). congruence.
  - destruct (truthy (McpServer.pe_startDate first)) eqn:Ts;
      [destruct (truthy (McpServer.pe_endDate first)) eqn:Te|];
      cbn [negb orb fst snd app].
    + split; [eexists; reflexivity|].
      split; [|intros u e' H1 H2; congruence].
      eexists. split; [reflexivity|]. rewrite startsWith_self.
      split; [|discriminate].
      split; [|reflexivity].
      intros _. exists url, data, first, rest. auto.
    + split; [eexists; reflexivity|].
      split; [|intros u e' H1 H2; congruence].
      apply Hfail.
      intros (u & d & f & r & H1 & H2 & H3 & H4 & H5). congruence.
    + split; [eexists; reflexivity|].
      split; [|intros u e' H1 H2; congruence].
      apply Hfail.
      intros (u & d & f & r & H1 & H2 & H3 & H4 & H5). congruence.
  - cbn [fst snd app].
    split; [eexists; reflexivity|]. split; [|intros u e' H1 H2; congruence].
    apply Hfail. intros (u & d & f & r & H1 & H2 & H3 & _). congruence.
Qed.

Lemma createEvent_handler_reply_witness :
  McpServer.createEventHandler helsinkiOffset SampleServer.readBackFails
    Samples.july Samples.juneCall
  = ([McpServer.CreateEvent
        (createEventArgs helsinkiOffset Samples.july Samples.juneCall);
      McpServer.GetEventByUrl "/calendar/1.ics"],
     McpServer.reply "Failed to create event: Not Found").
Proof.
  exact (proj2 (proj2 (createEvent_handler_reply helsinkiOffset
                         SampleServer.readBackFails Samples.july
                         Samples.juneCall))
           "/calendar/1.ics" (ExternalFailure "Not Found")
           eq_refl eq_refl).
Defined.

(** X14.  The two listing handlers reply with all the events or with none.
    When every record of the calendar parses, the reply carries the parsed
    records, one for each record and in the calendar's order; when one
    does not, the reply is the failure text with the error of the first
    such record, and nothing of the records that did parse.  Neither
    handler throws. *)
Theorem listing_is_all_or_nothing (zoneOffset : Z -> Z)
  (b : McpServer.Backend) (tsNow : Z) (startText endText : string)
  (rawEvents : list string) :
  let startDate := fromISO zoneOffset tsNow startText in
  let endDate := fromISO zoneOffset tsNow endText in
  let ranged := McpServer.ListEventsByDateRange startDate endDate in
  (forall parsed,
     Forall2 (fun data p => McpServer.icsToJson b data = Normal p)
             rawEvents parsed ->
     (McpServer.listEvents b = Normal rawEvents ->
      McpServer.listEventsHandler b
      = ([McpServer.ListEvents],
         McpServer.reply ("Events retrieved successfully: "
                          ++ McpServer.JSON_stringify b parsed)))
     /\ (McpServer.listEventsByDateRange b startDate endDate
         = Normal rawEvents ->
         McpServer.listEventsByRangeHandler zoneOffset b tsNow
           startText endText
         = ([ranged],
            McpServer.reply ("Events retrieved successfully for range "
                             ++ startText ++ " to " ++ endText ++ ": "
                             ++ McpServer.JSON_stringify b parsed))))
  /\ (forall good bad rest e,
        rawEvents = (good ++ bad :: rest)%list ->
        Forall (fun data => isThrow (McpServer.icsToJson b data) = false)
               good ->
        McpServer.icsToJson b bad = Throw e ->
        (McpServer.listEvents b = Normal rawEvents ->
         McpServer.listEventsHandler b
         = ([McpServer.ListEvents],
            McpServer.reply ("Failed to list events: "
                             ++ McpServer.messageOf e)))
        /\ (McpServer.listEventsByDateRange b startDate endDate
            = Normal rawEvents ->
            McpServer.listEventsByRangeHandler zoneOffset b tsNow
              startText endText
            = ([ranged],
               McpServer.reply ("Failed to list events by date range: "
                                ++ McpServer.messageOf e)))).
Proof.
  cbv zeta. split.
  - intros parsed Hp. pose proof (parseAll_ok b rawEvents parsed Hp) as E.
    split; intros Hl.
    + unfold McpServer.listEventsHandler, McpServer.tryCatch,
        McpServer.bindS, McpServer.call, McpServer.pureS.
      now rewrite Hl, E.
    + unfold McpServer.listEventsByRangeHandler, McpServer.tryCatch,
        McpServer.bindS, McpServer.call, McpServer.pureS.
      now rewrite Hl, E.
  - intros good bad rest e -> Hg Hb.
    pose proof (parseAll_first_failure b good bad rest e Hg Hb) as E.
    split; intros Hl.
    + unfold McpServer.listEventsHandler, McpServer.tryCatch,
        McpServer.bindS, McpServer.call, McpServer.pureS.
      now rewrite Hl, E.
    + unfold McpServer.listEventsByRangeHandler, McpServer.tryCatch,
        McpServer.bindS, McpServer.call, McpServer.pureS.
      now rewrite Hl, E.
Qed.

Lemma listing_is_all_or_nothing_witness :
  McpServer.listEventsHandler SampleServer.oneBadRecord
  = ([McpServer.ListEvents],
     McpServer.reply "Failed to list events: invalid ical body").
Proof.
  refine (proj1 (proj2 (listing_is_all_or_nothing helsinkiOffset
                          SampleServer.oneBadRecord Samples.july
                          "2024-06-03T00:00:00" "2024-06-04T00:00:00"
                          ["good"; "bad"; "good"])
                   ["good"] "bad" ["good"]
                   (ExternalFailure "invalid ical body")
                   eq_refl _ eq_refl) eq_refl).
  constructor; [reflexivity | constructor].
Defined.

(** ** The middlewares *)

Lemma endsWith_self (x : string) : endsWith x x = true.
Proof. destruct x; cbn [endsWith]; now rewrite String.eqb_refl. Qed.

Lemma endsWith_append (a x : string) : endsWith x (a ++ x) = true.
Proof.
  induction a as [|c a IH]; [apply endsWith_self|].
  change (String c a ++ x) with (String c (a ++ x)).
  cbn [endsWith]. rewrite IH. apply orb_true_r.
Qed.

(** X15.  The error handler never answers with a status below 400: it
    keeps the status of the error when that is 400 or more and answers 500
    otherwise, also when the error has no status.  In production it sends
    the placeholder for the stack, never the stack of the error.  An
    unknown route, through [notFound], is answered with 404 and a message
    that names the route. *)
Theorem errorHandler_answers (NODE_ENV : option string)
  (err : Middlewares.CustomError) :
  let res := Middlewares.errorHandler NODE_ENV err in
  400 <= Middlewares.statusCode res
  /\ (forall n, Middlewares.status err = Some n -> 400 <= n ->
                Middlewares.statusCode res = n)
  /\ (forall n, Middlewares.status err = Some n -> n < 400 ->
                Middlewares.statusCode res = 500)
  /\ (Middlewares.status err = None -> Middlewares.statusCode res = 500)
  /\ (NODE_ENV = Some "production" ->
      Middlewares.body_stack res = Some "🥞")
  /\ (forall trace url,
        let res404 :=
          Middlewares.errorHandler NODE_ENV
            (Middlewares.notFound trace url) in
        Middlewares.statusCode res404 = 404
        /\ Middlewares.body_message res404 = "🔍 - Not Found - " ++ url).
Proof.
  cbv zeta.
  unfold Middlewares.errorHandler, Middlewares.statusOf.
  cbn [Middlewares.statusCode Middlewares.body_stack
       Middlewares.body_message].
  split; [|split; [|split; [|split; [|split]]]].
  - destruct (Middlewares.status err) as [n|]; [|lia].
    destruct (Z.eqb_spec n 0), (Z.leb_spec 400 n); cbn [negb andb]; lia.
  - intros n -> Hn.
    destruct (Z.eqb_spec n 0), (Z.leb_spec 400 n); cbn [negb andb]; lia.
  - intros n -> Hn.
    destruct (Z.eqb_spec n 0), (Z.leb_spec 400 n); cbn [negb andb]; lia.
  - now intros ->.
  - now intros ->.
  - intros trace url. split; reflexivity.
Qed.

Lemma errorHandler_answers_witness :
  Middlewares.statusCode
    (Middlewares.errorHandler (Some "production")
       (Middlewares.mkCustomError "teapot" (Some 418) (Some "at line 1")))
  = 418.
Proof.
  exact (proj1 (proj2 (errorHandler_answers (Some "production")
                         (Middlewares.mkCustomError "teapot" (Some 418)
                            (Some "at line 1"))))
           418 eq_refl ltac:(lia)).
Defined.

(** X16.  Whatever goes wrong in [audioTranscription], the error handed on
    is the same: Failed to transcribe audio, with status 500, the request
    being left as it came.  In particular a request with an audio file on
    a server without the address of the proxy is answered so, without any
    call to the transcription service, and the error that names the
    missing configuration is never handed on. *)
Theorem transcription_failures_look_alike (trace : option string)
  (env : Middlewares.Env) (req : Middlewares.Request) :
  (forall effects req' e,
     Middlewares.audioTranscription trace env req
     = (effects, (req', Middlewares.NextError e)) ->
     e = Middlewares.transcriptionFailed trace
     /\ req' = req
     /\ Middlewares.statusCode (Middlewares.errorHandler None e) = 500
     /\ Middlewares.body_message (Middlewares.errorHandler None e)
        = "Failed to transcribe audio")
  /\ (forall file files,
        Middlewares.audio req = Some (file :: files) ->
        truthy (Middlewares.OPENAI_PROXY_URL env) = false ->
        Middlewares.audioTranscription trace env req
        = ([Middlewares.ConsoleError],
           (req, Middlewares.NextError
                   (Middlewares.transcriptionFailed trace)))).
Proof.
  split.
  - intros effects req' e.
    unfold Middlewares.audioTranscription.
    destruct (Middlewares.transcriptionBody trace env req)
      as [eff [thrown | done]] eqn:B.
    + intros [= _ <- <-]. repeat split.
    + intros [= _ ->]. unfold Middlewares.transcriptionBody in B.
      destruct (Middlewares.audio req) as [[|file files]|];
        try (injection B as _ B; discriminate).
      destruct (negb _); [discriminate|].
      destruct (Middlewares.transcribe env _ file);
        [injection B as _ B; discriminate | discriminate].
  - intros file files Ha Hp.
    unfold Middlewares.audioTranscription, Middlewares.transcriptionBody.
    now rewrite Ha, Hp.
Qed.

Lemma transcription_failures_look_alike_witness :
  Middlewares.audioTranscription None SampleServer.notConfigured
    (SampleServer.withAudio (Some "Book a room"))
  = ([Middlewares.ConsoleError],
     (SampleServer.withAudio (Some "Book a room"),
      Middlewares.NextError (Middlewares.transcriptionFailed None))).
Proof.
  exact (proj2 (transcription_failures_look_alike None
                  SampleServer.notConfigured
                  (SampleServer.withAudio (Some "Book a room")))
           _ _ eq_refl eq_refl).
Defined.

(** X17.  A request without an audio file passes through untouched, with no
    call to the transcription service, whether or not the proxy is
    configured.  With an audio file that is transcribed, the prompt handed
    on begins with the prompt that was typed and ends with the transcript
    in its brackets; it is the transcript alone when nothing was typed.
    Only the first file is sent. *)
Theorem transcription_keeps_typed_prompt (trace : option string)
  (env : Middlewares.Env) (req : Middlewares.Request) :
  ((Middlewares.audio req = None \/ Middlewares.audio req = Some []) ->
   Middlewares.audioTranscription trace env req
   = ([], (req, Middlewares.NextOk)))
  /\ (forall effects req',
        Middlewares.audioTranscription trace env req
        = (effects, (req', Middlewares.NextOk)) ->
        forall file files,
          Middlewares.audio req = Some (file :: files) ->
          exists url text,
            effects = [Middlewares.Fetch url file]
            /\ Middlewares.transcribe env url file = Normal text
            /\ Middlewares.audio req' = Middlewares.audio req
            /\ Middlewares.prompt req'
               = Some (Middlewares.composePrompt
                         (Middlewares.prompt req) text)
            /\ startsWith (McpClient.textOf (Middlewares.prompt req))
                 (Middlewares.composePrompt (Middlewares.prompt req) text)
               = true
            /\ (truthy (Middlewares.prompt req) = false ->
                Middlewares.composePrompt (Middlewares.prompt req) text
                = text)
            /\ (truthy (Middlewares.prompt req) = true ->
                endsWith ("[Audio transcription: " ++ text ++ "]")
                  (Middlewares.composePrompt (Middlewares.prompt req) text)
                = true)).
Proof.
  split.
  - unfold Middlewares.audioTranscription, Middlewares.transcriptionBody.
    intros [-> | ->]; reflexivity.
  - intros effects req' H file files Ha.
    unfold Middlewares.audioTranscription, Middlewares.transcriptionBody
      in H.
    rewrite Ha in H.
    destruct (negb (truthy (Middlewares.OPENAI_PROXY_URL env)));
      [discriminate|].
    destruct (Middlewares.transcribe env _ file) as [text|e] eqn:T;
      [|discriminate].
    injection H as <- <-.
    eexists. exists text. split; [reflexivity|]. split; [exact T|].
    split; [now rewrite Ha|]. split; [reflexivity|].
    unfold Middlewares.composePrompt.
    destruct (truthy (Middlewares.prompt req)) eqn:Tp.
    + split; [apply startsWith_self|]. split; [discriminate|].
      intros _.
      change (String LF (String LF "[Audio transcription: ") ++ text ++ "]")
        with (String LF (String LF "")
              ++ ("[Audio transcription: " ++ text ++ "]")).
      rewrite <- (append_assoc _ (String LF (String LF "")) _).
      apply endsWith_append.
    + split; [|split; [reflexivity | discriminate]].
      destruct (Middlewares.prompt req) as [[|c s]|];
        [reflexivity | discriminate | reflexivity].
Qed.

Lemma transcription_keeps_typed_prompt_witness :
  Middlewares.audioTranscription None (SampleServer.hears "at noon")
    {| Middlewares.audio := None; Middlewares.prompt := Some "Book a room" |}
  = ([], ({| Middlewares.audio := None;
             Middlewares.prompt := Some "Book a room" |},
          Middlewares.NextOk)).
Proof.
  exact (proj1 (transcription_keeps_typed_prompt None
                  (SampleServer.hears "at noon")
                  {| Middlewares.audio := None;
                     Middlewares.prompt := Some "Book a room" |})
           (or_introl eq_refl)).
Defined.

(** ** From the text of a time to the record *)

Section CivilFacts.

Lemma DayFromYear_mono a b : a <= b -> DayFromYear a <= DayFromYear b.
Proof.
  intros H. unfold DayFromYear. Z.div_mod_to_equations. lia.
Qed.

(** The year of a day is the only year that holds it. *)
Lemma YearFromDay_unique d y :
  DayFromYear y <= d < DayFromYear (y + 1) -> YearFromDay d = y.
Proof.
  intros Hy. pose proof (YearFromDay_spec d) as HY.
  set (Y := YearFromDay d) in *.
  destruct (Z.lt_trichotomy Y y) as [L | [E | G]]; [|exact E|].
  - pose proof (DayFromYear_mono (Y + 1) y ltac:(lia)). lia.
  - pose proof (DayFromYear_mono (y + 1) Y ltac:(lia)). lia.
Qed.

Lemma daysBeforeMonth_next y m :
  1 <= m <= 12 ->
  let l := if DaysInYear y =? 366 then 1 else 0 in
  0 <= daysBeforeMonth l (m - 1)
  /\ daysBeforeMonth l (m - 1) + daysInMonth y m <= 365 + l.
Proof.
  intros Hm. cbv zeta.
  assert (Hc : m = 1 \/ m = 2 \/ m = 3 \/ m = 4 \/ m = 5 \/ m = 6 \/ m = 7
               \/ m = 8 \/ m = 9 \/ m = 10 \/ m = 11 \/ m = 12) by lia.
  unfold daysInMonth.
  destruct (DaysInYear y =? 366);
    repeat (destruct Hc as [-> | Hc]; [cbn; lia|]); subst; cbn; lia.
Qed.

Lemma validFields_bounds c :
  validFields c = true -> hour c <= 23 ->
  1 <= month c <= 12 /\ 1 <= day c <= daysInMonth (year c) (month c)
  /\ 0 <= hour c <= 23 /\ 0 <= minute c <= 59 /\ 0 <= second c <= 59.
Proof.
  unfold validFields. rewrite !andb_true_iff, orb_true_iff, !andb_true_iff.
  rewrite !Z.leb_le, !Z.eqb_eq. lia.
Qed.

Lemma month_of_day_within_year l w m dim :
  l = 0 \/ l = 1 ->
  1 <= m <= 12 ->
  dim = (match m with
         | 2 => 28 + l
         | 4 | 6 | 9 | 11 => 30
         | _ => 31
         end) ->
  daysBeforeMonth l (m - 1) <= w < daysBeforeMonth l (m - 1) + dim ->
  (if w <? 31 then 0
   else if w <? 59 + l then 1
   else if w <? 90 + l then 2
   else if w <? 120 + l then 3
   else if w <? 151 + l then 4
   else if w <? 181 + l then 5
   else if w <? 212 + l then 6
   else if w <? 243 + l then 7
   else if w <? 273 + l then 8
   else if w <? 304 + l then 9
   else if w <? 334 + l then 10
   else 11) = m - 1.
Proof.
  intros Hl Hm -> Hw.
  assert (Hc : m = 1 \/ m = 2 \/ m = 3 \/ m = 4 \/ m = 5 \/ m = 6 \/ m = 7
               \/ m = 8 \/ m = 9 \/ m = 10 \/ m = 11 \/ m = 12) by lia.
  destruct Hl as [-> | ->];
    repeat (destruct Hc as [-> | Hc];
            [cbn in Hw |- *;
             repeat (match goal with
                     | |- context [Z.ltb ?a ?b] => destruct (Z.ltb_spec a b)
                     end; try lia); fail|]);
    subst; cbn in Hw |- *;
    repeat (match goal with
            | |- context [Z.ltb ?a ?b] => destruct (Z.ltb_spec a b)
            end; try lia).
Qed.

Lemma daysInMonth_table y m :
  daysInMonth y m
  = (match m with
     | 2 => 28 + (if DaysInYear y =? 366 then 1 else 0)
     | 4 | 6 | 9 | 11 => 30
     | _ => 31
     end).
Proof.
  unfold daysInMonth. destruct m as [|p|p]; try reflexivity.
  destruct p as [p|p|]; try reflexivity.
  destruct p as [p|p|]; try reflexivity.
  destruct (DaysInYear y =? 366); reflexivity.
Qed.

(** The civil fields of the local time made of valid fields are those
    fields. *)
Lemma tsToObj_objToLocalTS c ts offset :
  validFields c = true -> hour c <= 23 ->
  ts + offset * 60 * 1000 = objToLocalTS c ->
  tsToObj ts offset = c.
Proof.
  intros Hv Hh E.
  destruct (validFields_bounds c Hv Hh) as (Hmo & Hd & Hhr & Hmi & Hs).
  unfold tsToObj. rewrite E. clear E ts offset.
  destruct c as [y mo d h mi s].
  cbn [year month day hour minute second] in *.
  unfold objToLocalTS. cbn [year month day hour minute second].
  set (l := if DaysInYear y =? 366 then 1 else 0).
  assert (Hl : l = 0 \/ l = 1) by (subst l; destruct (_ =? 366); auto).
  pose proof (daysBeforeMonth_next y mo Hmo) as (Hb0 & Hb2).
  fold l in Hb0, Hb2.
  set (D := MakeDay y (mo - 1) d).
  set (T := MakeTime h mi s 0).
  assert (HT : 0 <= T < 86400000 /\ T = h * 3600000 + mi * 60000 + s * 1000).
  { subst T. unfold MakeTime, msPerHour, msPerMinute, msPerSecond. lia. }
  set (L := MakeDate D T).
  assert (HL : L = D * 86400000 + T) by reflexivity.
  assert (HD : Day L = D).
  { unfold Day, msPerDay. rewrite HL. Z.div_mod_to_equations. lia. }
  assert (Hw : D = DayFromYear y + (daysBeforeMonth l (mo - 1) + d - 1)).
  { subst D. unfold MakeDay. fold l. lia. }
  assert (HY : YearFromTime L = y).
  { unfold YearFromTime. rewrite HD. apply YearFromDay_unique.
    rewrite DayFromYear_succ, (DaysInYear_leap y). fold l. lia. }
  assert (HI : InLeapYear L = l) by (unfold InLeapYear; now rewrite HY).
  assert (HW : DayWithinYear L = daysBeforeMonth l (mo - 1) + d - 1)
    by (unfold DayWithinYear; rewrite HD, HY; lia).
  assert (HM : MonthFromTime L = mo - 1).
  { unfold MonthFromTime. rewrite HW, HI.
    apply (month_of_day_within_year l _ mo (daysInMonth y mo) Hl Hmo).
    - rewrite daysInMonth_table. fold l. reflexivity.
    - lia. }
  assert (HDt : DateFromTime L = d)
    by (unfold DateFromTime; rewrite HW, HI, HM; lia).
  assert (Hhms : HourFromTime L = h /\ MinFromTime L = mi
                 /\ SecFromTime L = s).
  { unfold HourFromTime, MinFromTime, SecFromTime,
      msPerHour, msPerMinute, msPerSecond.
    rewrite HL. destruct HT as (HT1 & HT2). rewrite HT2.
    repeat split; Z.div_mod_to_equations; lia. }
  destruct Hhms as (H1 & H2 & H3).
  rewrite HY, HM, HDt, H1, H2, H3. f_equal. lia.
Qed.

End CivilFacts.

Section DigitFacts.

Lemma digitValue_inv a x :
  digitValue a = Some x -> 0 <= x <= 9 /\ digitChar x = a.
Proof.
  unfold digitValue, digitChar.
  destruct (_ && _) eqn:E; [|discriminate]. intros [= <-].
  apply andb_true_iff in E. destruct E as (E1 & E2).
  apply Z.leb_le in E1, E2. split; [lia|].
  replace (48 + Z.to_nat (Z.of_nat (nat_of_ascii a) - 48))%nat
    with (nat_of_ascii a) by lia.
  apply ascii_nat_embedding.
Qed.

Lemma digitsValue_step acc c rest :
  digitsValue acc (String c rest)
  = match digitValue c with
    | Some d => digitsValue (10 * acc + d) rest
    | None => None
    end.
Proof. reflexivity. Qed.

Lemma digitsValue_done acc : digitsValue acc "" = Some acc.
Proof. reflexivity. Qed.

(** Two digits of a text and the number they spell. *)
Lemma field_two from s n :
  field from 2 s = Some n ->
  0 <= n < 100 /\ twoDigits n = substring from 2 s.
Proof.
  unfold field. destruct (substring from 2 s) as [|a [|b [|? ?]]];
    cbn [String.length Nat.eqb]; try discriminate.
  rewrite digitsValue_step.
  destruct (digitValue a) as [x|] eqn:Ha; [|discriminate].
  rewrite digitsValue_step.
  destruct (digitValue b) as [y|] eqn:Hb; [|discriminate].
  rewrite digitsValue_done. intros E.
  assert (En : n = 10 * (10 * 0 + x) + y) by congruence.
  clear E. subst n.
  destruct (digitValue_inv a x Ha) as (Hx & <-).
  destruct (digitValue_inv b y Hb) as (Hy & <-).
  split; [lia|]. unfold twoDigits.
  replace ((10 * (10 * 0 + x) + y) / 10) with x
    by (Z.div_mod_to_equations; lia).
  replace ((10 * (10 * 0 + x) + y) mod 10) with y
    by (Z.div_mod_to_equations; lia).
  reflexivity.
Qed.

Lemma field_four from s n :
  field from 4 s = Some n ->
  0 <= n < 10000 /\ fourDigits n = substring from 4 s.
Proof.
  unfold field.
  destruct (substring from 4 s) as [|a [|b [|c [|d [|? ?]]]]];
    cbn [String.length Nat.eqb]; try discriminate.
  rewrite digitsValue_step.
  destruct (digitValue a) as [x|] eqn:Ha; [|discriminate].
  rewrite digitsValue_step.
  destruct (digitValue b) as [y|] eqn:Hb; [|discriminate].
  rewrite digitsValue_step.
  destruct (digitValue c) as [z|] eqn:Hc; [|discriminate].
  rewrite digitsValue_step.
  destruct (digitValue d) as [w|] eqn:Hd; [|discriminate].
  rewrite digitsValue_done. intros E.
  assert (En : n = 10 * (10 * (10 * (10 * 0 + x) + y) + z) + w)
    by congruence.
  clear E.
  destruct (digitValue_inv a x Ha) as (Hx & <-).
  destruct (digitValue_inv b y Hb) as (Hy & <-).
  destruct (digitValue_inv c z Hc) as (Hz & <-).
  destruct (digitValue_inv d w Hd) as (Hw & <-).
  split; [lia|]. unfold fourDigits.
  replace (n / 1000) with x by (Z.div_mod_to_equations; lia).
  replace (n / 100 mod 10) with y by (Z.div_mod_to_equations; lia).
  replace (n / 10 mod 10) with z by (Z.div_mod_to_equations; lia).
  replace (n mod 10) with w by (Z.div_mod_to_equations; lia).
  reflexivity.
Qed.

(** The fields of a text of the schema's pattern, written with
    [padStart], are the digits of the text. *)
Lemma formatCalDav_isoFields text c :
  isoFields text = Some c -> formatCalDav c = Asked.compactIso text.
Proof.
  unfold isoFields. destruct (_ && _); [|discriminate].
  destruct (field 0 4 text) as [y|] eqn:Hy; [|discriminate].
  destruct (field 5 2 text) as [mo|] eqn:Hmo; [|discriminate].
  destruct (field 8 2 text) as [d|] eqn:Hd; [|discriminate].
  destruct (field 11 2 text) as [h|] eqn:Hh; [|discriminate].
  destruct (field 14 2 text) as [mi|] eqn:Hmi; [|discriminate].
  destruct (field 17 2 text) as [s|] eqn:Hs; [|discriminate].
  intros [= <-].
  destruct (field_four _ _ _ Hy) as (Ry & Ey).
  destruct (field_two _ _ _ Hmo) as (Rmo & Emo).
  destruct (field_two _ _ _ Hd) as (Rd & Ed).
  destruct (field_two _ _ _ Hh) as (Rh & Eh).
  destruct (field_two _ _ _ Hmi) as (Rmi & Emi).
  destruct (field_two _ _ _ Hs) as (Rs & Es).
  unfold formatCalDav, Asked.compactIso.
  cbn [year month day hour minute second].
  rewrite padStart_four by lia. rewrite !padStart_two by lia.
  now rewrite Ey, Emo, Ed, Eh, Emi, Es.
Qed.

End DigitFacts.

Section AskedTime.

Variable zoneOffset : Z -> Z.

(** [fixOffset] settles on an instant whose local time is the one it was
    given, unless the zone skips that local time. *)
Lemma fixOffset_local tsNow c :
  Asked.notSkipped zoneOffset tsNow c ->
  let ts := fixOffset zoneOffset (objToLocalTS c) (zoneOffset tsNow) in
  ts + zoneOffset ts * 60 * 1000 = objToLocalTS c.
Proof.
  unfold Asked.notSkipped, fixOffset. cbv zeta.
  set (L := objToLocalTS c). set (o := zoneOffset tsNow).
  set (o2 := zoneOffset (L - o * 60 * 1000)).
  intros H. destruct (Z.eqb_spec o o2) as [E | N].
  - fold o2. lia.
  - replace (L - o * 60 * 1000 - (o2 - o) * 60 * 1000)
      with (L - o2 * 60 * 1000) by lia.
    destruct H as [H | H]; [congruence|].
    rewrite H, Z.eqb_refl, H. lia.
Qed.

Lemma fromISO_names tsNow text c :
  Asked.names zoneOffset tsNow text c ->
  exists ts,
    fromISO zoneOffset tsNow text = TimeValue ts
    /\ tsToObj ts (zoneOffset ts) = c.
Proof.
  intros (Hi & Hv & Hh & Hn). unfold fromISO. rewrite Hi, Hv.
  eexists. split; [reflexivity|].
  apply tsToObj_objToLocalTS; [assumption..|].
  now apply fixOffset_local.
Qed.

Lemma toCalDav_fromISO tsNow text c :
  Asked.names zoneOffset tsNow text c ->
  toCalDav zoneOffset (Some (fromISO zoneOffset tsNow text))
  = Asked.compactIso text.
Proof.
  intros H. pose proof H as (Hi & _).
  destruct (fromISO_names tsNow text c H) as (ts & -> & Hc).
  unfold toCalDav. rewrite Hc. now apply formatCalDav_isoFields.
Qed.

Lemma names_truthy tsNow text c :
  Asked.names zoneOffset tsNow text c -> truthy (Some text) = true.
Proof.
  intros (Hi & _). destruct text; [discriminate Hi | reflexivity].
Qed.

End AskedTime.

(** X18.  A text that names a time of day of a calendar day, one the zone
    does not skip, is written by [toCalDav] as its own digits: parsing with
    [DateTime.fromISO] in the zone and formatting in the zone gives back
    the text without its dashes and colons, whatever the zone's table. *)
Theorem asked_time_is_written (zoneOffset : Z -> Z) (tsNow : Z)
  (text : string) (c : DateObj) :
  Asked.names zoneOffset tsNow text c ->
  toCalDav zoneOffset (Some (fromISO zoneOffset tsNow text))
  = Asked.compactIso text.
Proof. apply toCalDav_fromISO. Qed.

Lemma asked_time_is_written_witness :
  toCalDav helsinkiOffset
    (Some (fromISO helsinkiOffset 1717400000000 "2024-10-27T03:30:00"))
  = "20241027T033000".
Proof.
  apply (asked_time_is_written helsinkiOffset 1717400000000
           "2024-10-27T03:30:00" (mkDateObj 2024 10 27 3 30 0)).
  repeat split; try reflexivity; try (cbn; lia).
  right. vm_compute. reflexivity.
Defined.

(** X19.  [createEvent] with a start and an end that name times the zone
    does not skip: the lines the codec makes of the handler's event hold
    DTSTART and DTEND with the digits of the two texts. *)
Theorem createEvent_writes_both_times (zoneOffset : Z -> Z)
  (randomUUID : string) (now tsNow : Z) (input : CreateEventInput)
  (e : string) (cs ce : DateObj) :
  ce_end input = Some e ->
  Asked.names zoneOffset tsNow (ce_start input) cs ->
  Asked.names zoneOffset tsNow e ce ->
  exists lines,
    icalLines zoneOffset randomUUID now
      (createEventArgs zoneOffset tsNow input) = Normal lines
    /\ In ("DTSTART;TZID=Europe/Helsinki:"
           ++ Asked.compactIso (ce_start input)) lines
    /\ In ("DTEND;TZID=Europe/Helsinki:" ++ Asked.compactIso e) lines.
Proof.
  intros He Hs Hn.
  set (ev := createEventArgs zoneOffset tsNow input).
  exists (recordLines zoneOffset randomUUID now ev (ce_title input)).
  split; [now apply icalLines_titled|].
  assert (Es : toCalDav zoneOffset (start ev)
               = Asked.compactIso (ce_start input))
    by (apply (toCalDav_fromISO zoneOffset tsNow _ cs Hs)).
  assert (Ee : toCalDav zoneOffset (end_ ev) = Asked.compactIso e).
  { subst ev. unfold createEventArgs. cbn [end_]. rewrite He.
    rewrite (names_truthy zoneOffset tsNow e ce Hn).
    apply (toCalDav_fromISO zoneOffset tsNow _ ce Hn). }
  unfold recordLines, eventLines. rewrite Es, Ee.
  split; apply in_or_app; left; apply in_or_app; right;
    apply in_or_app; left; cbn [In app]; auto 6.
Qed.

Lemma createEvent_writes_both_times_witness :
  exists lines,
    icalLines helsinkiOffset "5f0c" 1717400000000
      (createEventArgs helsinkiOffset 1717400000000 Asked.withEnd)
    = Normal lines
    /\ In "DTSTART;TZID=Europe/Helsinki:20240603T120000" lines
    /\ In "DTEND;TZID=Europe/Helsinki:20240603T124500" lines.
Proof.
  apply (createEvent_writes_both_times helsinkiOffset "5f0c" 1717400000000
           1717400000000 Asked.withEnd "2024-06-03T12:45:00"
           (mkDateObj 2024 6 3 12 0 0) (mkDateObj 2024 6 3 12 45 0)).
  - reflexivity.
  - repeat split; try reflexivity; try (cbn; lia).
    left. vm_compute. reflexivity.
  - repeat split; try reflexivity; try (cbn; lia).
    left. vm_compute. reflexivity.
Defined.

(** X20.  A start that fits the schema's pattern and names no day of the
    calendar (the 30th of February, a 13th month), with no end: the handler
    makes Invalid Date of the start and of the end, nothing is thrown, and
    the codec writes the text Invalid DateTime on both lines. *)
Theorem invalid_start_is_written_invalid (zoneOffset : Z -> Z)
  (randomUUID : string) (now tsNow : Z) (input : CreateEventInput)
  (c : DateObj) :
  isoFields (ce_start input) = Some c ->
  validFields c = false ->
  ce_end input = None ->
  let ev := createEventArgs zoneOffset tsNow input in
  start ev = Some InvalidDate
  /\ end_ ev = Some InvalidDate
  /\ exists lines,
       icalLines zoneOffset randomUUID now ev = Normal lines
       /\ In "DTSTART;TZID=Europe/Helsinki:Invalid DateTime" lines
       /\ In "DTEND;TZID=Europe/Helsinki:Invalid DateTime" lines.
Proof.
  intros Hi Hv He. cbv zeta.
  set (ev := createEventArgs zoneOffset tsNow input).
  assert (Es : start ev = Some InvalidDate).
  { subst ev. unfold createEventArgs, fromISO. cbn [start].
    now rewrite Hi, Hv. }
  assert (Ee : end_ ev = Some InvalidDate).
  { subst ev. unfold createEventArgs, fromISO. cbn [end_].
    now rewrite He, Hi, Hv. }
  split; [assumption|]. split; [assumption|].
  exists (recordLines zoneOffset randomUUID now ev (ce_title input)).
  split; [now apply icalLines_titled|].
  unfold recordLines, eventLines. rewrite Es, Ee.
  split; apply in_or_app; left; apply in_or_app; right;
    apply in_or_app; left; cbn [In app toCalDav]; auto 6.
Qed.

Lemma invalid_start_is_written_invalid_witness :
  start (createEventArgs helsinkiOffset 1717400000000
           Asked.februaryThirtieth) = Some InvalidDate.
Proof.
  apply (invalid_start_is_written_invalid helsinkiOffset "5f0c"
           1717400000000 1717400000000 Asked.februaryThirtieth
           (mkDateObj 2024 2 30 10 0 0)); reflexivity.
Defined.
